(** * qiime/filter.py: a shallow embedding and its properties

    The functions of [qiime/filter.py] that select sample identifiers from
    a mapping file, filter sequences, mapping files and distance matrices,
    and build the count-bounded predicate used on OTU tables, written as
    Rocq functions.  Python exceptions are values of [exn]; a function that
    may raise returns a [result]. *)

From stdpp Require Import gmap strings list.

Open Scope string_scope.
Open Scope list_scope.

(** ** Exceptions and the error monad *)

(** The exceptions the module can raise.  [NotInList x] is the
    [ValueError] of [list.index(x)] (its message names [x]); [ValueError]
    is the one raised explicitly with a message. *)
Inductive exn : Type :=
  | IndexError
  | KeyError (key : string)
  | NotInList (x : string)
  | ValueError (msg : string).

Definition result (A : Type) : Type := exn + A.

Definition raise {A} (e : exn) : result A := inl e.

#[global] Instance result_ret : MRet result := λ A x, inr x.
#[global] Instance result_bind : MBind result := λ A B f m,
  match m with
  | inl e => inl e
  | inr x => f x
  end.

(** ** Python primitives used by the module *)

Module Py.

(** [l[i]] for a non-negative [i]. *)
Definition getitem {A} (l : list A) (i : nat) : result A :=
  match l !! i with
  | Some x => mret x
  | None => raise IndexError
  end.

(** [l[-1]]. *)
Definition getlast {A} (l : list A) : result A :=
  match last l with
  | Some x => mret x
  | None => raise IndexError
  end.

(** [l[1:-1]]: slices never raise. *)
Definition interior {A} (l : list A) : list A :=
  take (length l - 2) (drop 1 l).

(** [l.index(x)]: the position of the first occurrence. *)
Fixpoint index (x : string) (l : list string) : result nat :=
  match l with
  | [] => raise (NotInList x)
  | y :: l' =>
      if decide (y = x) then mret 0
      else n ← index x l'; mret (S n)
  end.

(** Whitespace of [str.split()] on a byte string:
    space, and the control characters tab to carriage return. *)
Definition isspace (c : Ascii.ascii) : bool :=
  let n := Ascii.nat_of_ascii c in
  ((n =? 32) || ((9 <=? n) && (n <=? 13)))%nat.

(** [s.split()]: the maximal runs of non-whitespace characters.
    [cur] is the run being read. *)
Fixpoint split_go (cur : string) (s : string) : list string :=
  match s with
  | EmptyString => if decide (cur = EmptyString) then [] else [cur]
  | String c s' =>
      if isspace c
      then (if decide (cur = EmptyString) then split_go EmptyString s'
            else cur :: split_go EmptyString s')
      else split_go (cur +:+ String c EmptyString) s'
  end.

Definition split (s : string) : list string := split_go EmptyString s.

(** [zip] applied to the rows as its arguments: the columns of [rows],
    as many as the shortest row has cells; [zip()] of nothing is the
    empty list. *)
Fixpoint zip_star {A} (rows : list (list A)) : list (list A) :=
  match rows with
  | [] => []
  | [r] => (λ x, [x]) <$> r
  | r :: rest => zip_with cons r (zip_star rest)
  end.

(** [len(set(l))]: the number of distinct values of [l]. *)
Definition len_set (l : list string) : nat :=
  length (remove_dups l).

(** [enumerate(l)]. *)
Definition enumerate {A} (l : list A) : list (nat * A) :=
  zip (seq 0 (length l)) l.

End Py.

(** [s.split()[0]]: the identifier normalisation of the module. *)
Definition first_token (s : string) : result string :=
  Py.getitem (Py.split s) 0.

(** ** get_sample_ids *)

(** [states] is the dict [{col: [vals]}], given by its items in the
    order the dict iterates them. *)
Definition states_t : Type := list (string * list string).

(** One pass of the inner loop of [get_sample_ids]. *)
Definition include_step (name_to_col : gmap string nat) (row : list string)
    (include : bool) (item : string * list string) : result bool :=
  let '(s, vals) := item in
  col ← match name_to_col !! s with
        | Some c => mret c
        | None => raise (KeyError s)
        end;
  curr_state ← Py.getitem row col;
  mret (include
        && (bool_decide (curr_state ∈ vals) || bool_decide ("*" ∈ vals))
        && negb (bool_decide ("!" +:+ curr_state ∈ vals))).

(** [for x in l: acc = step(acc, x)], stopping at the first exception. *)
Fixpoint for_each {A S} (step : S → A → result S) (acc : S) (l : list A)
    : result S :=
  match l with
  | [] => mret acc
  | x :: l' => acc' ← step acc x; for_each step acc' l'
  end.

(** [[(s, map_header.index(s)) for s in states]]. *)
Definition column_pairs (map_header : list string) (keys : list string)
    : result (list (string * nat)) :=
  mapM (λ s, i ← Py.index s map_header; mret (s, i)) keys.

(** The body of the loop over the rows: the state is [good_ids]. *)
Definition row_step (name_to_col : gmap string nat) (states : states_t)
    (good_ids : list string) (row : list string) : result (list string) :=
  include ← for_each (include_step name_to_col row) true states;
  if include : bool
  then id ← Py.getitem row 0; mret (good_ids ++ [id])
  else mret good_ids.

(** [name_to_col] is [dict] of the pairs: every pair of a name carries the
    same index, so which pair of a repeated name the dict keeps does not
    matter. *)
Definition get_sample_ids (map_data : list (list string))
    (map_header : list string) (states : states_t) : result (list string) :=
  pairs ← column_pairs map_header (states.*1);
  let name_to_col : gmap string nat := list_to_map pairs in
  for_each (row_step name_to_col states) [] map_data.

(** ** filter_fasta *)

(** The output sink: what was written to it, in order, and whether it
    was closed. *)
Record file : Type := File { written : list string; closed : bool }.

Definition write (f : file) (s : string) : file :=
  {| written := written f ++ [s]; closed := closed f |}.

Definition close (f : file) : file :=
  {| written := written f; closed := true |}.

(** A record of the parser: fasta has two fields, fastq three. *)
Inductive entry : Type :=
  | Fasta (seq_id seq : string)
  | Fastq (seq_id seq qual : string).

Definition entry_0 (e : entry) : string :=
  match e with Fasta i _ | Fastq i _ _ => i end.

Definition entry_1 (e : entry) : string :=
  match e with Fasta _ s | Fastq _ s _ => s end.

Definition newline : string := String (Ascii.ascii_of_nat 10) EmptyString.

(** [{}.fromkeys([x.split()[0] for x in ids])], as the set of its keys. *)
Definition fromkeys_first_tokens (ids : list string) : result (gset string) :=
  tokens ← mapM first_token ids; mret (list_to_set tokens).

(** The closure [keep_seq], with the variables it captures as arguments. *)
Definition keep_seq (seqs_to_keep_lookup : gset string) (negate : bool)
    (seq_id : string) : result bool :=
  if negb negate
  then t ← first_token seq_id; mret (bool_decide (t ∈ seqs_to_keep_lookup))
  else t ← first_token seq_id; mret (bool_decide (t ∉ seqs_to_keep_lookup)).

(** The loop over [input_seqs]: the sink as it is when the loop ends or
    raises, and the outcome. *)
Fixpoint write_kept (seqs_to_keep_lookup : gset string) (negate : bool)
    (input_seqs : list entry) (output_seqs_f : file) : file * result () :=
  match input_seqs with
  | [] => (output_seqs_f, mret ())
  | e :: rest =>
      let seq_id := entry_0 e in
      let seq := entry_1 e in
      match keep_seq seqs_to_keep_lookup negate seq_id with
      | inl err => (output_seqs_f, raise err)
      | inr true =>
          write_kept seqs_to_keep_lookup negate rest
            (write output_seqs_f
               (">" +:+ seq_id +:+ newline +:+ seq +:+ newline))
      | inr false => write_kept seqs_to_keep_lookup negate rest output_seqs_f
      end
  end.

Definition filter_fasta (input_seqs : list entry) (output_seqs_f : file)
    (seqs_to_keep : list string) (negate : bool) : file * result () :=
  match fromkeys_first_tokens seqs_to_keep with
  | inl err => (output_seqs_f, raise err)
  | inr seqs_to_keep_lookup =>
      match write_kept seqs_to_keep_lookup negate input_seqs output_seqs_f with
      | (f, inr _) => (close f, mret ())
      | (f, inl err) => (f, raise err)
      end
  end.

(** ** filter_mapping_file *)

(** [[i for i in map_data if i[0] in good_sample_ids]]. *)
Fixpoint rows_to_keep (good_sample_ids : list string)
    (map_data : list (list string)) : result (list (list string)) :=
  match map_data with
  | [] => mret []
  | i :: rest =>
      c ← Py.getitem i 0;
      kept ← rows_to_keep good_sample_ids rest;
      mret (if bool_decide (c ∈ good_sample_ids) then i :: kept else kept)
  end.

Definition not_unique_msg : string :=
  "The column to rename the samples is not unique.".

(** The test [include_repeat_cols or len(set(l))>1]. *)
Definition column_survives (include_repeat_cols : bool) (l : list string)
    : bool :=
  include_repeat_cols || bool_decide (1 < Py.len_set l).

(** The body of the loop without renaming: the state is
    [(headers, result)]. *)
Definition plain_step (map_header : list string) (include_repeat_cols : bool)
    (st : list string * list (list string)) (il : nat * list string)
    : result (list string * list (list string)) :=
  let '(headers, result) := st in
  let '(i, l) := il in
  if column_survives include_repeat_cols l
  then h ← Py.getitem map_header (i + 1);
       mret (headers ++ [h], result ++ [l])
  else mret (headers, result).

(** The body of the loop with renaming; [column_rename_ids] was already
    reduced by one. *)
Definition rename_step (map_header : list string) (include_repeat_cols : bool)
    (column_rename_ids : Z)
    (st : list string * list (list string)) (il : nat * list string)
    : result (list string * list (list string)) :=
  let '(headers, result) := st in
  let '(i, l) := il in
  if bool_decide (Z.of_nat i = column_rename_ids)
  then
    r0 ← Py.getitem result 0;
    if bool_decide (Py.len_set l ≠ length r0)
    then raise (ValueError not_unique_msg)
    else
      let result := <[0 := l]> (result ++ [r0]) in
      h ← Py.getitem map_header (i + 1);
      mret (headers ++ ["SampleID_was_" +:+ h], result)
  else plain_step map_header include_repeat_cols (headers, result) (i, l).

(** [if column_rename_ids:] on [None] or an integer. *)
Definition truthy (column_rename_ids : option Z) : option Z :=
  match column_rename_ids with
  | Some 0%Z | None => None
  | Some c => Some c
  end.

Definition filter_mapping_file (map_data : list (list string))
    (map_header : list string) (good_sample_ids : list string)
    (include_repeat_cols : bool) (column_rename_ids : option Z)
    : result (list string * list (list string)) :=
  to_keep ← rows_to_keep good_sample_ids map_data;
  let to_keep := Py.zip_star to_keep in
  h0 ← Py.getitem map_header 0;
  c0 ← Py.getitem to_keep 0;
  st ← match truthy column_rename_ids with
       | Some c =>
           for_each (rename_step map_header include_repeat_cols (c - 1))
             ([h0], [c0]) (Py.enumerate (Py.interior to_keep))
       | None =>
           for_each (plain_step map_header include_repeat_cols)
             ([h0], [c0]) (Py.enumerate (Py.interior to_keep))
       end;
  let '(headers, result) := st in
  hl ← Py.getlast map_header;
  cl ← Py.getlast to_keep;
  mret (headers ++ [hl], Py.zip_star (result ++ [cl])).

(** ** filter_samples_from_distance_matrix *)

(** The closure [keep_sample], with the variables it captures as
    arguments. *)
Definition keep_sample (sample_lookup : gset string) (negate : bool)
    (s : string) : bool :=
  if negate
  then bool_decide (s ∈ sample_lookup)
  else bool_decide (s ∉ sample_lookup).

(** [dm] is the pair [(sample_ids, dm_data)]; [dm_data] is a rectangular
    matrix, whose transpose is the list of its columns.  The result is the
    pair handed to [format_distance_matrix]. *)
Definition filter_samples_from_distance_matrix {A}
    (dm : list string * list (list A)) (samples_to_discard : list string)
    (negate : bool) : result (list string * list (list A)) :=
  let '(sample_ids, dm_data) := dm in
  sample_lookup ← fromkeys_first_tokens samples_to_discard;
  let kept :=
    filter (λ p, keep_sample sample_lookup negate p.2)
      (zip dm_data sample_ids) in
  let temp_dm_data := Py.zip_star (kept.*1) in
  let new_sample_ids := kept.*2 in
  let new_dm_data :=
    (filter (λ p, keep_sample sample_lookup negate p.2)
       (zip temp_dm_data sample_ids)).*1 in
  mret (new_sample_ids, Py.zip_star new_dm_data).

(** ** get_filter_function *)

(** The predicate uses [data_vector] through [data_vector.sum()] only,
    and what that returns through [min_count <= ...] and
    [... <= max_count] only, which Python hands to the comparison methods
    of the value returned.  The sum is not this module's: it is the one of
    the object passed in, for a numpy array an addition in the precision
    of its dtype.  A type of data vectors is therefore a type with these
    three operations: [vector_sum] is [data_vector.sum()], [le_sum m s] is
    [m <= s] and [sum_le s m] is [s <= m], for an integer bound [m]. *)
Class DataVector (V : Type) : Type := {
  scalar : Type;
  vector_sum : V → scalar;
  le_sum : Z → scalar → bool;
  sum_le : scalar → Z → bool }.

Definition get_filter_function {V M} {DV : DataVector V}
    (ids_to_keep : gset string) (min_count max_count : Z)
    (negate_ids_to_keep : bool) : V → string → M → bool :=
  if negate_ids_to_keep
  then λ data_vector id_ metadata,
         bool_decide (id_ ∉ ids_to_keep)
         && (le_sum min_count (vector_sum data_vector)
             && sum_le (vector_sum data_vector) max_count)
  else λ data_vector id_ metadata,
         bool_decide (id_ ∈ ids_to_keep)
         && (le_sum min_count (vector_sum data_vector)
             && sum_le (vector_sum data_vector) max_count).

(** The data vectors of a table of integer counts: numpy arrays of dtype
    [int64].  Their [sum] adds in 64 bits, two's complement, so that a
    total out of the range wraps around; the total, a 64-bit integer,
    compares with an integer bound by value. *)
Definition int64 (z : Z) : Z := ((z + 2 ^ 63) `mod` 2 ^ 64 - 2 ^ 63)%Z.

Definition int64_sum (data_vector : list Z) : Z :=
  foldl (λ total x, int64 (total + x)) 0%Z data_vector.

#[global] Instance int64_vector : DataVector (list Z) := {|
  scalar := Z;
  vector_sum := int64_sum;
  le_sum := Z.leb;
  sum_le := Z.leb |}.

(** ** negate_tips_to_keep *)

Section tree.

(** The tree class is not part of the module: its method [tips] and the
    attribute [Name] of a tip are parameters. *)
Context {tree node : Type} (tips : tree → list node) (Name : node → string).

Definition negate_tips_to_keep (tips_to_keep : list string) (t : tree)
    : gset string :=
  let tips_to_keep : gset string := list_to_set tips_to_keep in
  let tips : gset string := list_to_set (Name <$> tips t) in
  tips ∖ tips_to_keep.

End tree.

(** ** get_seqs_to_keep_lookup_from_seq_id_file *)

(** [s.lstrip()], [s.rstrip()] and [s.strip()] on a byte string. *)
Fixpoint lstrip (s : string) : string :=
  match s with
  | EmptyString => EmptyString
  | String c s' => if Py.isspace c then lstrip s' else s
  end.

Fixpoint rstrip (s : string) : string :=
  match s with
  | EmptyString => EmptyString
  | String c s' =>
      let r := rstrip s' in
      if Py.isspace c && bool_decide (r = EmptyString) then EmptyString
      else String c r
  end.

Definition strip (s : string) : string := rstrip (lstrip s).

(** The filter [not l.startswith('#') and l] of the comprehension. *)
Definition id_line (l : string) : bool :=
  negb (String.prefix "#" l) && bool_decide (l ≠ EmptyString).

(** [id_to_keep_f] is the file, given by its lines. *)
Definition get_seqs_to_keep_lookup_from_seq_id_file
    (id_to_keep_f : list string) : result (gset string) :=
  tokens ← mapM (λ l, t ← first_token l; mret (strip t))
              (filter (λ l, id_line l) id_to_keep_f);
  mret (list_to_set tokens).

(** ** get_seqs_to_keep_lookup_from_fasta_file *)


(** ** The selection rule of get_sample_ids, as documented *)

(** The cell of [row] under the column named [s]: the one at the position
    of the first occurrence of [s] in the header. *)
Definition cell (map_header row : list string) (s : string) : option string :=
  p ← list_find (λ h, h = s) map_header; row !! p.1.

(** A value passes a token list when it is listed or the list has the
    wildcard, and its exclusion token is not listed. *)
Definition column_included (vals : list string) (c : string) : Prop :=
  (c ∈ vals ∨ "*" ∈ vals) ∧ "!" +:+ c ∉ vals.

#[global] Instance column_included_dec vals c :
  Decision (column_included vals c).
Proof. unfold column_included. apply _. Defined.

(** A row is included when every constrained column passes. *)
Definition row_included (map_header : list string) (states : states_t)
    (row : list string) : Prop :=
  Forall (λ item, ∃ c, cell map_header row item.1 = Some c
                       ∧ column_included item.2 c) states.

#[global] Instance row_included_dec map_header states row :
  Decision (row_included map_header states row).
Proof.
  unfold row_included. apply Forall_dec. intros item.
  destruct (cell map_header row item.1) as [c|].
  - destruct (decide (column_included item.2 c)) as [Hc|Hc].
    + left. eauto.
    + right. intros (c' & [= <-] & Hc'). contradiction.
  - right. intros (c & Hc & _). discriminate.
Defined.

(** The invariant of a mapping file: there is an identifier column and
    every row has one cell per column. *)
Definition table_wf (map_header : list string) (map_data : list (list string))
    : Prop :=
  map_header ≠ []
  ∧ Forall (λ row, length row = length map_header) map_data.

(** ** Identifiers and the keep rules, as documented *)

(** [s] is empty or has whitespace only. *)
Fixpoint blank (s : string) : bool :=
  match s with
  | EmptyString => true
  | String c s' => Py.isspace c && blank s'
  end.

(** A record is kept by sequence filtering when the first token of its
    identifier is in the lookup, or is not in it when [negate] is set. *)
Definition seq_kept (lookup : gset string) (negate : bool) (e : entry) : Prop :=
  ∃ t, first_token (entry_0 e) = inr t
       ∧ if negate then t ∉ lookup else t ∈ lookup.

#[global] Instance seq_kept_dec lookup negate e :
  Decision (seq_kept lookup negate e).
Proof.
  unfold seq_kept. destruct (first_token (entry_0 e)) as [err|t].
  - right. intros (t & Ht & _). discriminate.
  - destruct negate.
    + destruct (decide (t ∈ lookup)) as [Hin|Hnin].
      * right. intros (t' & [= <-] & Hnin). contradiction.
      * left. eauto.
    + destruct (decide (t ∈ lookup)) as [Hin|Hnin].
      * left. eauto.
      * right. intros (t' & [= <-] & Hin). contradiction.
Defined.


(** A sample of a distance matrix is kept when it is not in the lookup,
    or is in it when [negate] is set. *)
Definition sample_kept (lookup : gset string) (negate : bool) (s : string)
    : Prop :=
  if negate then s ∈ lookup else s ∉ lookup.

#[global] Instance sample_kept_dec lookup negate s :
  Decision (sample_kept lookup negate s).
Proof. unfold sample_kept. destruct negate; apply _. Defined.

(** The cells of [xs] at the positions of the kept samples of [ids]. *)
Definition select_kept {A} (lookup : gset string) (negate : bool)
    (ids : list string) (xs : list A) : list A :=
  (filter (λ p, sample_kept lookup negate p.2) (zip xs ids)).*1.

(** ** The pruned mapping file, as documented *)

(** The identifier cell of [row] is in [good_sample_ids]. *)
Definition id_in (good_sample_ids : list string) (row : list string) : Prop :=
  match row !! 0 with
  | Some c => c ∈ good_sample_ids
  | None => False
  end.

#[global] Instance id_in_dec good_sample_ids row :
  Decision (id_in good_sample_ids row).
Proof. unfold id_in. destruct (row !! 0); apply _. Defined.

(** The retained rows. *)
Definition retained (good_sample_ids : list string)
    (map_data : list (list string)) : list (list string) :=
  filter (id_in good_sample_ids) map_data.

(** The cell of a row (or the name in a header) at position [j]. *)
Definition cell_at (j : nat) (row : list string) : string :=
  default EmptyString (row !! j).

(** The column at position [j] of [rows]. *)
Definition column (rows : list (list string)) (j : nat) : list string :=
  cell_at j <$> rows.

(** The cells of [row] at the positions [js], in that order. *)
Definition pick (js : list nat) (row : list string) : list string :=
  (λ j, cell_at j row) <$> js.

(** Column [j] has more than one distinct value among [rows]: two of the
    rows differ there. *)
Definition varies (rows : list (list string)) (j : nat) : Prop :=
  Exists (λ r1, Exists (λ r2, cell_at j r1 ≠ cell_at j r2) rows) rows.

(** An interior column survives when repeats are included or it varies. *)
Definition survives (include_repeat_cols : bool) (rows : list (list string))
    (j : nat) : Prop :=
  include_repeat_cols = true ∨ varies rows j.

#[global] Instance varies_dec rows j : Decision (varies rows j).
Proof. unfold varies. apply _. Defined.

#[global] Instance survives_dec include_repeat_cols rows j :
  Decision (survives include_repeat_cols rows j).
Proof. unfold survives. apply _. Defined.

(** The interior positions of a table of [n] columns: those strictly
    between the first and the last. *)
Definition interior_positions (n : nat) : list nat := seq 1 (n - 2).

(** The positions kept without renaming: the first, the surviving
    interior ones in their order, the last. *)
Definition kept_positions (include_repeat_cols : bool)
    (rows : list (list string)) (n : nat) : list nat :=
  0 :: filter (survives include_repeat_cols rows) (interior_positions n)
    ++ [n - 1].

(** The interior positions kept when position [k] is the one renamed. *)
Definition kept_interior (include_repeat_cols : bool)
    (rows : list (list string)) (n k : nat) : list nat :=
  filter (λ j, j = k ∨ survives include_repeat_cols rows j)
    (interior_positions n).

(** The name, in the new header, of the kept interior column at position
    [j] when position [k] is the one renamed. *)
Definition renamed_name (map_header : list string) (k j : nat) : string :=
  if decide (j = k) then "SampleID_was_" +:+ cell_at k map_header
  else cell_at j map_header.

(** The kept interior column at position [j] when [c0] is the column
    demoted to position [k]. *)
Definition demoted_column (rows : list (list string)) (k : nat)
    (c0 : list string) (j : nat) : list string :=
  if decide (j = k) then c0 else column rows j.

(** The cell, in the new row, of the kept interior column at position [j]:
    the identifier cell at the renamed position [k]. *)
Definition demoted_cell (k : nat) (row : list string) (j : nat) : string :=
  if decide (j = k) then cell_at 0 row else cell_at j row.


(** ** Further notions used in the properties *)

(** [s] has no whitespace character. *)
Fixpoint nospace (s : string) : bool :=
  match s with
  | EmptyString => true
  | String c s' => negb (Py.isspace c) && nospace s'
  end.

(** A distance matrix is symmetric when it is its own transpose. *)
Definition symmetric {A} (dm_data : list (list A)) : Prop :=
  Py.zip_star dm_data = dm_data.

(** A distance matrix with its labels: one row and one column per
    sample. *)
Definition square {A} (sample_ids : list string) (dm_data : list (list A))
    : Prop :=
  length dm_data = length sample_ids
  ∧ Forall (λ row, length row = length sample_ids) dm_data.

(** The count half of the predicate of [get_filter_function]:
    [min_count <= data_vector.sum() <= max_count]. *)
Definition in_range {V} {DV : DataVector V} (min_count max_count : Z)
    (data_vector : V) : Prop :=
  le_sum min_count (vector_sum data_vector) = true
  ∧ sum_le (vector_sum data_vector) max_count = true.

(** The data vector sums to exactly the integer [n]: its total compares
    with every integer as [n] does.  For a vector of [int64] counts this
    is [int64_sum data_vector = n]. *)
Definition sums_to {V} {DV : DataVector V} (data_vector : V) (n : Z)
    : Prop :=
  ∀ m : Z,
    le_sum m (vector_sum data_vector) = bool_decide (m ≤ n)%Z
    ∧ sum_le (vector_sum data_vector) m = bool_decide (n ≤ m)%Z.

(** ** The examples of the documentation *)

Definition example_header : list string :=
  ["SampleID"; "Study"; "BodySite"; "Description"].

Definition example_rows : list (list string) :=
  [ ["S1"; "Dog"; "Palm"; "d1"];
    ["S2"; "Hand"; "Stool"; "d2"];
    ["S3"; "Cat"; "Palm"; "d3"] ].

Example split_words :
  Py.split "A desc" = ["A"; "desc"] ∧ Py.split "  B" = ["B"]
  ∧ Py.split " " = [] ∧ Py.split EmptyString = [].
Proof. repeat split; reflexivity. Qed.

Example first_token_ignores_description :
  first_token "A desc" = inr "A" ∧ first_token " " = inl IndexError.
Proof. split; reflexivity. Qed.

Example get_sample_ids_or_and :
  get_sample_ids example_rows example_header
    [("Study", ["Dog"; "Hand"]); ("BodySite", ["Palm"; "Stool"])]
  = inr ["S1"; "S2"].
Proof. vm_compute. reflexivity. Qed.

Example get_sample_ids_wildcard :
  get_sample_ids example_rows example_header
    [("Study", ["*"; "!Dog"]); ("BodySite", ["*"; "!Stool"])]
  = inr ["S3"].
Proof. vm_compute. reflexivity. Qed.

Example filter_fasta_example :
  filter_fasta [Fasta "A desc" "ACGT"; Fasta "B" "TTTT"] (File [] false)
    ["A"] false
  = (File [">A desc" +:+ newline +:+ "ACGT" +:+ newline] true, inr ()).
Proof. vm_compute. reflexivity. Qed.

Example filter_mapping_file_example :
  filter_mapping_file example_rows example_header ["S1"; "S3"] false None
  = inr (["SampleID"; "Study"; "Description"],
         [ ["S1"; "Dog"; "d1"]; ["S3"; "Cat"; "d3"] ]).
Proof. vm_compute. reflexivity. Qed.

Example filter_mapping_file_rename_example :
  filter_mapping_file example_rows example_header ["S1"; "S3"] false (Some 1%Z)
  = inr (["SampleID"; "SampleID_was_Study"; "Description"],
         [ ["Dog"; "S1"; "d1"]; ["Cat"; "S3"; "d3"] ]).
Proof. vm_compute. reflexivity. Qed.

Example filter_distance_matrix_example :
  filter_samples_from_distance_matrix
    (["A"; "B"; "C"], [ [0; 1; 2]; [1; 0; 3]; [2; 3; 0] ]%Z) ["B x"] false
  = inr (["A"; "C"], [ [0; 2]; [2; 0] ]%Z).
Proof. vm_compute. reflexivity. Qed.

(** ** Lemmas on the primitives *)


Lemma getitem_lookup {A} (l : list A) i x :
  l !! i = Some x → Py.getitem l i = inr x.
Proof. unfold Py.getitem. intros ->. reflexivity. Qed.

Lemma getitem_err {A} (l : list A) i e :
  Py.getitem l i = inl e → e = IndexError.
Proof.
  unfold Py.getitem. destruct (l !! i); [discriminate|].
  intros [= <-]. reflexivity.
Qed.

Lemma index_present x l :
  x ∈ l →
  ∃ i, Py.index x l = inr i ∧ list_find (λ h, h = x) l = Some (i, x).
Proof.
  induction l as [|y l IH]; intros Hin; [by apply elem_of_nil in Hin|].
  simpl. destruct (decide (y = x)) as [->|Hne].
  - by exists 0.
  - apply elem_of_cons in Hin as [->|Hin]; [done|].
    destruct (IH Hin) as (i & -> & Hfind). exists (S i). split; [done|].
    by rewrite Hfind.
Qed.

Lemma index_absent x l : x ∉ l → Py.index x l = inl (NotInList x).
Proof.
  induction l as [|y l IH]; intros Hnin; [done|].
  apply not_elem_of_cons in Hnin as [Hne Hnin]. simpl.
  rewrite decide_False by done. by rewrite IH.
Qed.


Lemma for_each_err {A S} (P : exn → Prop) (step : S → A → result S) l :
  (∀ acc x e, step acc x = inl e → P e) →
  ∀ acc e, for_each step acc l = inl e → P e.
Proof.
  intros Hstep. induction l as [|x l IH]; intros acc e; simpl; [discriminate|].
  destruct (step acc x) as [e'|acc'] eqn:Hs; simpl.
  - intros [= <-]. eauto.
  - apply IH.
Qed.

Lemma for_each_cons {A S} (step : S → A → result S) acc x l :
  for_each step acc (x :: l) = acc' ← step acc x; for_each step acc' l.
Proof. reflexivity. Qed.

Lemma mapM_cons {A B} (f : A → result B) x l :
  mapM f (x :: l) = y ← f x; k ← mapM f l; mret (y :: k).
Proof. reflexivity. Qed.

(** ** The column table [name_to_col] *)

Lemma column_pairs_ok map_header keys :
  Forall (λ s, s ∈ map_header) keys →
  ∃ pairs, column_pairs map_header keys = inr pairs
    ∧ ∀ s, s ∈ keys →
        ∃ i, (list_to_map pairs : gmap string nat) !! s = Some i
             ∧ list_find (λ h, h = s) map_header = Some (i, s).
Proof.
  unfold column_pairs. induction 1 as [|s keys Hs _ IH].
  - exists []. split; [done|]. intros s Hs. by apply elem_of_nil in Hs.
  - destruct IH as (pairs & Hp & Hlook).
    destruct (index_present _ _ Hs) as (i & Hi & Hfind).
    exists ((s, i) :: pairs). split.
    + rewrite mapM_cons, Hi. simpl. by rewrite Hp.
    + intros s' Hs'. simpl. destruct (decide (s = s')) as [<-|Hne].
      * exists i. by rewrite lookup_insert_eq.
      * rewrite lookup_insert_ne by done.
        apply elem_of_cons in Hs' as [->|Hs']; [done|]. by apply Hlook.
Qed.

Lemma column_pairs_missing map_header keys :
  Exists (λ s, s ∉ map_header) keys →
  ∃ s, s ∈ keys ∧ (s ∉ map_header)
       ∧ column_pairs map_header keys = inl (NotInList s).
Proof.
  unfold column_pairs. induction keys as [|s keys IH]; intros Hex.
  - by apply Exists_nil in Hex.
  - destruct (decide (s ∈ map_header)) as [Hin|Hnin].
    + apply Exists_cons in Hex as [Hex|Hex]; [done|].
      destruct (IH Hex) as (s' & Hs' & Hnin & Herr).
      exists s'. split; [by right|]. split; [done|].
      destruct (index_present _ _ Hin) as (i & Hi & _).
      rewrite mapM_cons, Hi. simpl. by rewrite Herr.
    + exists s. split; [by left|]. split; [done|].
      rewrite mapM_cons. by rewrite index_absent.
Qed.

Lemma include_step_err ntc row b item e :
  include_step ntc row b item = inl e → ∀ s, e ≠ NotInList s.
Proof.
  destruct item as [s vals]. unfold include_step.
  destruct (ntc !! s) as [c|]; simpl; [|by intros [= <-]].
  destruct (Py.getitem row c) as [e'|x] eqn:Hg; simpl; [|discriminate].
  intros [= <-]. apply getitem_err in Hg as ->. done.
Qed.

Lemma column_included_bool vals c :
  (bool_decide (c ∈ vals) || bool_decide ("*" ∈ vals))
  && negb (bool_decide ("!" +:+ c ∈ vals))
  = bool_decide (column_included vals c).
Proof.
  unfold column_included.
  rewrite <- bool_decide_not, <- bool_decide_or, <- bool_decide_and.
  apply bool_decide_ext. reflexivity.
Qed.

Lemma row_included_cons map_header s vals sts row c :
  cell map_header row s = Some c →
  row_included map_header ((s, vals) :: sts) row
  ↔ column_included vals c ∧ row_included map_header sts row.
Proof.
  intros Hc. unfold row_included. rewrite Forall_cons. simpl. split.
  - intros [(c' & Hc' & Hin) Hrest]. rewrite Hc in Hc'.
    injection Hc' as <-. done.
  - intros [Hin Hrest]. eauto.
Qed.

(** The inner loop computes the conjunction over the constrained columns. *)
Lemma include_loop (ntc : gmap string nat) map_header row sts b :
  length row = length map_header →
  (∀ s, s ∈ sts.*1 →
     ∃ i, ntc !! s = Some i
          ∧ list_find (λ h, h = s) map_header = Some (i, s)) →
  for_each (include_step ntc row) b sts
  = inr (b && bool_decide (row_included map_header sts row)).
Proof.
  intros Hlen. revert b. induction sts as [|[s vals] sts IH]; intros b Hntc.
  - rewrite bool_decide_true by constructor. simpl.
    by rewrite andb_true_r.
  - destruct (Hntc s) as (i & Hi & Hfind); [by left|].
    pose proof Hfind as Hf. apply list_find_Some in Hf as (Hh & _ & _).
    apply lookup_lt_Some in Hh. rewrite <- Hlen in Hh.
    apply lookup_lt_is_Some in Hh as [c Hc].
    assert (cell map_header row s = Some c) as Hcell.
    { unfold cell. rewrite Hfind. done. }
    simpl. rewrite Hi. simpl. rewrite (getitem_lookup _ _ _ Hc). simpl.
    rewrite IH by (intros s' Hs'; apply Hntc; by right).
    f_equal. rewrite <- !andb_assoc. f_equal.
    rewrite andb_assoc, column_included_bool, <- bool_decide_and.
    apply bool_decide_ext. symmetry. by apply row_included_cons.
Qed.

(** The loop over the rows appends the identifiers of the included rows. *)
Lemma rows_loop (ntc : gmap string nat) map_header states rows acc :
  table_wf map_header rows →
  (∀ s, s ∈ states.*1 →
     ∃ i, ntc !! s = Some i
          ∧ list_find (λ h, h = s) map_header = Some (i, s)) →
  ∃ ids, for_each (row_step ntc states) acc rows = inr (acc ++ ids)
    ∧ Forall2 (λ id row, row !! 0 = Some id) ids
        (filter (row_included map_header states) rows).
Proof.
  intros [Hne Hrows] Hntc. revert acc.
  induction Hrows as [|row rows Hlen _ IH]; intros acc.
  - exists []. simpl. by rewrite app_nil_r.
  - assert (row_step ntc states acc row
            = if bool_decide (row_included map_header states row)
              then id ← Py.getitem row 0; mret (acc ++ [id])
              else mret acc) as Hstep.
    { unfold row_step. by rewrite (include_loop ntc map_header). }
    rewrite for_each_cons, Hstep, filter_cons. case_bool_decide as Hinc.
    + rewrite decide_True by done.
      destruct row as [|id row]; [by destruct map_header|]. simpl.
      destruct (IH (acc ++ [id])) as (ids & -> & Hids).
      exists (id :: ids). rewrite <- app_assoc. split; [done|].
      by constructor.
    + rewrite decide_False by done. simpl. apply IH.
Qed.

(** ** Theorems on get_sample_ids *)

(** C1: on a mapping file (a header and rows of as many cells) whose
    header has every constrained column, [get_sample_ids] returns, in the
    order of the rows, the first cells of exactly the rows in which every
    constrained column passes: its cell is listed or the wildcard is, and
    the cell prefixed by [!] is not listed. *)
Theorem get_sample_ids_selects map_data map_header (states : states_t) :
  table_wf map_header map_data →
  (∀ s, s ∈ states.*1 → s ∈ map_header) →
  ∃ ids, get_sample_ids map_data map_header states = inr ids
    ∧ Forall2 (λ id row, row !! 0 = Some id) ids
        (filter (row_included map_header states) map_data).
Proof.
  intros Hwf Hcols. unfold get_sample_ids.
  destruct (column_pairs_ok map_header (states.*1)) as (pairs & -> & Hntc).
  { by apply Forall_forall. }
  simpl. destruct (rows_loop (list_to_map pairs) map_header states map_data [])
    as (ids & Hloop & Hids); [done..|].
  exists ids. by rewrite Hloop.
Qed.

Lemma get_sample_ids_selects_witness :
  ∃ ids, get_sample_ids example_rows example_header
           [("Study", ["*"; "!Dog"]); ("BodySite", ["Palm"])] = inr ids
    ∧ Forall2 (λ id row, row !! 0 = Some id) ids
        (filter (row_included example_header
                   [("Study", ["*"; "!Dog"]); ("BodySite", ["Palm"])])
           example_rows).
Proof.
  apply get_sample_ids_selects.
  - split; [discriminate|]. repeat constructor.
  - intros s Hs. cbn in Hs.
    apply elem_of_cons in Hs as [->|Hs]; [repeat constructor|].
    apply list_elem_of_singleton in Hs as ->. repeat constructor.
Defined.

(** C7: if some constrained column is absent from the header,
    [get_sample_ids] raises the [list.index] error naming an absent
    constrained column, whatever the rows are; if every constrained column
    is in the header it raises no such error. *)
Theorem get_sample_ids_missing_column map_data map_header (states : states_t) :
  ((∃ s, s ∈ states.*1 ∧ s ∉ map_header) →
   ∃ s, s ∈ states.*1 ∧ (s ∉ map_header)
        ∧ get_sample_ids map_data map_header states = inl (NotInList s))
  ∧ ((∀ s, s ∈ states.*1 → s ∈ map_header) →
     ∀ s, get_sample_ids map_data map_header states ≠ inl (NotInList s)).
Proof.
  split.
  - intros Hex. apply Exists_exists in Hex.
    destruct (column_pairs_missing _ _ Hex) as (s & Hs & Hnin & Herr).
    exists s. unfold get_sample_ids. by rewrite Herr.
  - intros Hcols s. unfold get_sample_ids.
    destruct (column_pairs_ok map_header (states.*1)) as (pairs & -> & _).
    { by apply Forall_forall. }
    simpl. intros Herr.
    eapply (for_each_err (λ e, e ≠ NotInList s)) in Herr; [done|].
    intros acc row e. unfold row_step.
    destruct (for_each _ true states) as [e'|b] eqn:Hinner; simpl.
    + intros [= <-].
      eapply (for_each_err (λ e, e ≠ NotInList s)) in Hinner; [done|].
      intros b x e Hstep. by eapply include_step_err.
    + destruct b; [|discriminate].
      destruct (Py.getitem row 0) as [e'|x] eqn:Hg; simpl; [|discriminate].
      intros [= <-]. apply getitem_err in Hg as ->. done.
Qed.

Lemma get_sample_ids_missing_column_witness :
  (∃ s, s ∈ [("Stud", ["Dog"])].*1 ∧ (s ∉ example_header)
        ∧ get_sample_ids example_rows example_header [("Stud", ["Dog"])]
          = inl (NotInList s))
  ∧ ∀ s, get_sample_ids example_rows example_header [("Study", ["Dog"])]
         ≠ inl (NotInList s).
Proof.
  split.
  - apply (get_sample_ids_missing_column example_rows example_header
             [("Stud", ["Dog"])]).
    exists "Stud". split; [by left|].
    unfold example_header. intros Hin.
    repeat (apply elem_of_cons in Hin as [Heq|Hin]; [discriminate Heq|]).
    by apply elem_of_nil in Hin.
  - apply (get_sample_ids_missing_column example_rows example_header
             [("Study", ["Dog"])]).
    intros s Hs. apply list_elem_of_singleton in Hs as ->.
    repeat constructor.
Defined.

(** ** Identifier normalisation *)

Lemma split_go_nil cur s :
  Py.split_go cur s = [] ↔ cur = EmptyString ∧ blank s = true.
Proof.
  revert cur. induction s as [|c s IH]; intros cur; simpl.
  - case_decide as Hcur.
    + by split.
    + split; [discriminate|]. intros [? _]. contradiction.
  - destruct (Py.isspace c); simpl.
    + case_decide as Hcur.
      * rewrite IH. split; [by intros [_ ?]|by intros [_ ?]].
      * split; [discriminate|]. intros [? _]. contradiction.
    + rewrite IH. split; [|intros [_ ?]; discriminate].
      intros [Hcur _]. destruct cur; discriminate.
Qed.

Lemma first_token_blank s : blank s = true → first_token s = inl IndexError.
Proof.
  intros Hb. unfold first_token, Py.split.
  assert (Py.split_go EmptyString s = []) as -> by by apply split_go_nil.
  reflexivity.
Qed.

Lemma first_token_nonblank s : blank s = false → ∃ t, first_token s = inr t.
Proof.
  intros Hb. unfold first_token, Py.split.
  destruct (Py.split_go EmptyString s) as [|t l] eqn:Hs.
  - apply split_go_nil in Hs as [_ Hs]. congruence.
  - by exists t.
Qed.

Lemma first_token_err s e : first_token s = inl e → e = IndexError.
Proof. apply getitem_err. Qed.




(** ** The keep rule of filter_fasta *)

Lemma keep_seq_rule lookup negate seq_id t :
  first_token seq_id = inr t →
  keep_seq lookup negate seq_id
  = inr (if negate then bool_decide (t ∉ lookup)
         else bool_decide (t ∈ lookup)).
Proof. intros Ht. unfold keep_seq. by destruct negate; simpl; rewrite Ht. Qed.





(** C8: on an identifier with a non-whitespace character, the predicate
    of [filter_fasta] returns a truth value for either value of [negate],
    and the two values are each other's negation. *)
Theorem keep_seq_negate (lookup : gset string) (seq_id : string) :
  blank seq_id = false →
  ∃ b, keep_seq lookup false seq_id = inr b
       ∧ keep_seq lookup true seq_id = inr (negb b).
Proof.
  intros Hb. destruct (first_token_nonblank _ Hb) as [t Ht].
  exists (bool_decide (t ∈ lookup)).
  rewrite !(keep_seq_rule _ _ _ _ Ht). split; [done|].
  by rewrite bool_decide_not.
Qed.

Lemma keep_seq_negate_witness :
  ∃ b, keep_seq {["A"]} false "A desc" = inr b
       ∧ keep_seq {["A"]} true "A desc" = inr (negb b).
Proof. apply keep_seq_negate. reflexivity. Defined.



(** ** Transposition and selection in a distance matrix *)

Section select.
Context {A : Type} (lookup : gset string) (negate : bool).

Abbreviation select := (select_kept (A:=A) lookup negate).

Lemma select_nil_l ids : select ids [] = [].
Proof. reflexivity. Qed.

Lemma select_nil_r xs : select [] xs = [].
Proof. unfold select_kept. by destruct xs. Qed.

Lemma select_cons id ids x xs :
  select (id :: ids) (x :: xs)
  = if decide (sample_kept lookup negate id)
    then x :: select ids xs else select ids xs.
Proof.
  unfold select_kept. simpl. rewrite filter_cons. simpl.
  by destruct (decide (sample_kept lookup negate id)).
Qed.

Lemma select_ids ids (xs : list A) :
  length xs = length ids →
  (filter (λ p : A * string, sample_kept lookup negate p.2) (zip xs ids)).*2
  = filter (sample_kept lookup negate) ids.
Proof.
  revert xs. induction ids as [|id ids IH]; intros [|x xs] Hlen;
    try done.
  simpl. rewrite !filter_cons. simpl.
  destruct (decide (sample_kept lookup negate id)); simpl;
    rewrite IH by (simpl in Hlen; lia); done.
Qed.

Lemma select_length ids (xs : list A) :
  length xs = length ids →
  length (select ids xs) = length (filter (sample_kept lookup negate) ids).
Proof.
  revert xs. induction ids as [|id ids IH]; intros [|x xs] Hlen;
    try done.
  rewrite select_cons, filter_cons.
  destruct (decide (sample_kept lookup negate id)); simpl;
    rewrite IH by (simpl in Hlen; lia); done.
Qed.
End select.

Lemma select_fmap {A B} lookup negate (f : A → B) ids xs :
  select_kept lookup negate ids (f <$> xs)
  = f <$> select_kept lookup negate ids xs.
Proof.
  revert xs. induction ids as [|id ids IH]; intros [|x xs].
  - done.
  - by rewrite !select_nil_r.
  - done.
  - rewrite fmap_cons, !select_cons.
    destruct (decide (sample_kept lookup negate id)); by rewrite IH.
Qed.

Lemma select_zip_with_cons {A} lookup negate ids (r : list A) T :
  select_kept lookup negate ids (zip_with cons r T)
  = zip_with cons (select_kept lookup negate ids r)
      (select_kept lookup negate ids T).
Proof.
  revert r T. induction ids as [|id ids IH]; intros r T.
  - by rewrite !select_nil_r.
  - destruct r as [|x r]; [done|]. destruct T as [|t T].
    + simpl. rewrite !select_nil_l. by rewrite zip_with_nil_r.
    + simpl. rewrite !select_cons.
      destruct (decide (sample_kept lookup negate id)); simpl; by rewrite IH.
Qed.

(** Selecting columns is selecting in every row. *)
Lemma select_zip_star {A} lookup negate ids (M : list (list A)) :
  select_kept lookup negate ids (Py.zip_star M)
  = Py.zip_star (select_kept lookup negate ids <$> M).
Proof.
  induction M as [|r M IH]; [done|].
  destruct M as [|r' M].
  - simpl. by rewrite select_fmap.
  - change (Py.zip_star (r :: r' :: M))
      with (zip_with cons r (Py.zip_star (r' :: M))).
    rewrite select_zip_with_cons, IH. done.
Qed.

Lemma zip_star_singletons {A} (r : list A) :
  r ≠ [] → Py.zip_star ((λ x, [x]) <$> r) = [r].
Proof.
  induction r as [|x r IH]; [done|]. intros _.
  destruct r as [|y r]; [done|].
  change (Py.zip_star ((λ x, [x]) <$> x :: y :: r))
    with (zip_with cons [x] (Py.zip_star ((λ x, [x]) <$> y :: r))).
  by rewrite IH.
Qed.

Lemma zip_star_zip_with_cons {A} (r : list A) (T : list (list A)) :
  r ≠ [] → length r = length T →
  Py.zip_star (zip_with cons r T) = r :: Py.zip_star T.
Proof.
  revert T. induction r as [|x r IH]; [done|]. intros [|t T] _ Hlen; [done|].
  destruct r as [|y r].
  - destruct T; [done|discriminate].
  - destruct T as [|t' T]; [discriminate|].
    change (Py.zip_star (zip_with cons (x :: y :: r) (t :: t' :: T)))
      with (zip_with cons (x :: t)
              (Py.zip_star (zip_with cons (y :: r) (t' :: T)))).
    rewrite IH by (done || (simpl in *; lia)). done.
Qed.

Lemma zip_star_length {A} (M : list (list A)) n :
  M ≠ [] → Forall (λ r, length r = n) M → length (Py.zip_star M) = n.
Proof.
  intros Hne Hall. induction Hall as [|r M Hr HM IH]; [done|].
  destruct M as [|r' M].
  - simpl. by rewrite length_fmap.
  - change (Py.zip_star (r :: r' :: M))
      with (zip_with cons r (Py.zip_star (r' :: M))).
    rewrite length_zip_with, IH by done. lia.
Qed.

(** Transposing twice gives the matrix back. *)
Lemma zip_star_involutive {A} (M : list (list A)) n :
  0 < n → Forall (λ r, length r = n) M → Py.zip_star (Py.zip_star M) = M.
Proof.
  intros Hn Hall. induction Hall as [|r M Hr HM IH]; [done|].
  assert (r ≠ []) by (intros ->; simpl in Hr; lia).
  destruct M as [|r' M].
  - by apply zip_star_singletons.
  - change (Py.zip_star (r :: r' :: M))
      with (zip_with cons r (Py.zip_star (r' :: M))).
    rewrite zip_star_zip_with_cons, IH; [done..|].
    rewrite (zip_star_length _ n); done.
Qed.

(** ** The keep rules of the two filters *)

Lemma keep_sample_rule lookup negate s :
  Is_true (keep_sample lookup negate s) ↔ sample_kept lookup negate s.
Proof.
  unfold keep_sample, sample_kept.
  destruct negate; by rewrite bool_decide_spec.
Qed.

Lemma keep_sample_filter {A} lookup negate (l : list (A * string)) :
  filter (λ p, keep_sample lookup negate p.2) l
  = filter (λ p, sample_kept lookup negate p.2) l.
Proof. apply list_filter_iff. intros p. apply keep_sample_rule. Qed.




(** ** The count-bounded predicate *)

(** The total of a vector of [int64] counts is the exact sum brought back
    into the 64-bit range. *)
Lemma int64_idemp (a x : Z) : int64 (int64 a + x) = int64 (a + x).
Proof.
  unfold int64. f_equal.
  replace (((a + 2 ^ 63) `mod` 2 ^ 64 - 2 ^ 63 + x + 2 ^ 63)%Z)
    with (((a + 2 ^ 63) `mod` 2 ^ 64 + x)%Z) by lia.
  rewrite Z.add_mod_idemp_l by lia. f_equal. lia.
Qed.

Lemma int64_sum_wraps (data_vector : list Z) :
  int64_sum data_vector = int64 (foldr Z.add 0%Z data_vector).
Proof.
  unfold int64_sum.
  assert (∀ l a, foldl (λ total x, int64 (total + x)) (int64 a) l
                 = int64 (a + foldr Z.add 0 l)%Z) as Hgen.
  { induction l as [|x l IH]; intros a; simpl.
    - by rewrite Z.add_0_r.
    - rewrite int64_idemp, IH. f_equal. lia. }
  exact (Hgen data_vector 0%Z).
Qed.

Lemma int64_sums_to (data_vector : list Z) (n : Z) :
  sums_to data_vector n ↔ int64_sum data_vector = n.
Proof.
  unfold sums_to. simpl. split.
  - intros Hcmp. destruct (Hcmp n) as [Hle Hge].
    rewrite bool_decide_eq_true_2 in Hle by lia.
    rewrite bool_decide_eq_true_2 in Hge by lia.
    apply Z.leb_le in Hle, Hge. lia.
  - intros -> m. split; case_bool_decide; lia.
Qed.

Lemma int64_in_range (min_count max_count : Z) (data_vector : list Z) :
  in_range min_count max_count data_vector
  ↔ (min_count ≤ int64_sum data_vector ≤ max_count)%Z.
Proof. unfold in_range. simpl. rewrite !Z.leb_le. tauto. Qed.

(** C3, as the code has it: the predicate keeps iff the identifier is in
    [ids_to_keep] (is not, when [negate_ids_to_keep] is set) and
    [min_count <= sum <= max_count], the sum being the one the data vector
    computes; [negate_ids_to_keep] does not enter the count half.  When
    [min_count <= max_count], a vector summing to [min_count] or to
    [max_count] passes the count half, so that the predicate is the
    membership half; a vector summing to [min_count - 1] or to
    [max_count + 1] is rejected. *)
Theorem get_filter_function_rule {V M} {DV : DataVector V}
    (ids_to_keep : gset string) (min_count max_count : Z)
    (negate_ids_to_keep : bool) (data_vector : V) (id_ : string)
    (metadata : M) :
  let f := get_filter_function ids_to_keep min_count max_count
             negate_ids_to_keep in
  let member := if negate_ids_to_keep then id_ ∉ ids_to_keep
                else id_ ∈ ids_to_keep in
  (f data_vector id_ metadata = true
   ↔ member
     ∧ le_sum min_count (vector_sum data_vector) = true
     ∧ sum_le (vector_sum data_vector) max_count = true)
  ∧ ((min_count ≤ max_count)%Z →
     sums_to data_vector min_count ∨ sums_to data_vector max_count →
     (f data_vector id_ metadata = true ↔ member))
  ∧ (sums_to data_vector (min_count - 1)
     ∨ sums_to data_vector (max_count + 1) →
     f data_vector id_ metadata = false).
Proof.
  assert (get_filter_function ids_to_keep min_count max_count
            negate_ids_to_keep data_vector id_ metadata = true
          ↔ (if negate_ids_to_keep then id_ ∉ ids_to_keep
             else id_ ∈ ids_to_keep)
            ∧ le_sum min_count (vector_sum data_vector) = true
            ∧ sum_le (vector_sum data_vector) max_count = true)
    as Hrule.
  { unfold get_filter_function.
    destruct negate_ids_to_keep;
      rewrite !andb_true_iff, bool_decide_eq_true; tauto. }
  cbv zeta. split; [exact Hrule|]. split.
  - intros Hle Hsum. rewrite Hrule. split; [tauto|]. intros Hm.
    split; [done|].
    destruct Hsum as [Hsum|Hsum].
    + rewrite (proj1 (Hsum min_count)), (proj2 (Hsum max_count)).
      split; apply bool_decide_eq_true_2; lia.
    + rewrite (proj1 (Hsum min_count)), (proj2 (Hsum max_count)).
      split; apply bool_decide_eq_true_2; lia.
  - intros Hsum. apply not_true_is_false. rewrite Hrule.
    intros (_ & Hlo & Hhi). destruct Hsum as [Hsum|Hsum].
    + rewrite (proj1 (Hsum min_count)) in Hlo.
      apply bool_decide_eq_true_1 in Hlo. lia.
    + rewrite (proj2 (Hsum max_count)) in Hhi.
      apply bool_decide_eq_true_1 in Hhi. lia.
Qed.

Lemma get_filter_function_rule_witness :
  (get_filter_function {["a"]} 3 5 false [1; 2]%Z "a" () = true
   ↔ "a" ∈ ({["a"]} : gset string))
  ∧ get_filter_function {["a"]} 3 5 false [1; 1]%Z "a" () = false.
Proof.
  split.
  - apply (get_filter_function_rule {["a"]} 3 5 false [1; 2]%Z "a" ()).
    + lia.
    + left. apply int64_sums_to. reflexivity.
  - apply (get_filter_function_rule {["a"]} 3 5 false [1; 1]%Z "a" ()).
    left. apply int64_sums_to. reflexivity.
Defined.

(** C3 as stated fails in two ways.  When [min_count > max_count], a
    vector summing to exactly [min_count] does not pass the count test,
    whatever the membership half says.  And the sum is the one the vector
    computes, not the sum of the integers it holds: the [int64] vector
    [2^63 - 1; 1], whose entries add up to [max_count + 1] for
    [max_count = 2^63 - 1], has the total [-2^63] and is kept with
    [min_count = -2^63]. *)
Lemma count_test_boundaries_fail :
  (sums_to [5%Z] 5
   ∧ "a" ∈ ({["a"]} : gset string)
   ∧ get_filter_function {["a"]} 5 3 false [5%Z] "a" () = false)
  ∧ (foldr Z.add 0%Z [2 ^ 63 - 1; 1]%Z = (2 ^ 63 - 1 + 1)%Z
     ∧ int64_sum [2 ^ 63 - 1; 1]%Z = (- 2 ^ 63)%Z
     ∧ get_filter_function {["a"]} (- 2 ^ 63) (2 ^ 63 - 1) false
         [2 ^ 63 - 1; 1]%Z "a" () = true).
Proof.
  split.
  - split; [by apply int64_sums_to|].
    split; [by apply elem_of_singleton|]. vm_compute. reflexivity.
  - split; [vm_compute; reflexivity|].
    split; vm_compute; reflexivity.
Qed.

(** ** Columns of a mapping file *)

Lemma fmap_cells {B} (f : string → B) (r : list string) :
  f <$> r = (λ j, f (cell_at j r)) <$> seq 0 (length r).
Proof.
  induction r as [|x r IH]; [done|].
  cbn [length]. rewrite <- cons_seq, !fmap_cons, <- fmap_S_seq.
  rewrite <- list_fmap_compose. f_equal. exact IH.
Qed.

(** The transposed rows are the columns, in order. *)
Lemma zip_star_columns (rows : list (list string)) n :
  rows ≠ [] → Forall (λ r, length r = n) rows →
  Py.zip_star rows = column rows <$> seq 0 n.
Proof.
  intros Hne Hall. induction Hall as [|r rows Hr Hrows IH]; [done|].
  destruct rows as [|r' rows].
  - change (Py.zip_star [r]) with ((λ x : string, [x]) <$> r).
    by rewrite fmap_cells, Hr.
  - change (Py.zip_star (r :: r' :: rows))
      with (zip_with cons r (Py.zip_star (r' :: rows))).
    rewrite IH by done. rewrite <- (list_fmap_id r) at 1.
    rewrite (fmap_cells id), Hr, zip_with_fmap_l, zip_with_fmap_r.
    by rewrite zip_with_diag.
Qed.

(** Transposing chosen columns gives the rows cut down to them. *)
Lemma zip_star_picked (rows : list (list string)) js :
  js ≠ [] → Py.zip_star (column rows <$> js) = pick js <$> rows.
Proof.
  induction js as [|j js IH]; [done|]. intros _.
  destruct js as [|j' js].
  - simpl. unfold column. by rewrite <- list_fmap_compose.
  - change (Py.zip_star (column rows <$> j :: j' :: js))
      with (zip_with cons (column rows j)
              (Py.zip_star (column rows <$> j' :: js))).
    rewrite IH by done. unfold column at 1.
    rewrite zip_with_fmap_l, zip_with_fmap_r. by rewrite zip_with_diag.
Qed.

Lemma interior_fmap_seq {B} (f : nat → B) n :
  Py.interior (f <$> seq 0 n) = f <$> interior_positions n.
Proof.
  unfold Py.interior, interior_positions.
  rewrite length_fmap, length_seq, <- fmap_drop, <- fmap_take.
  rewrite drop_seq, take_seq. do 2 f_equal. lia.
Qed.

Lemma getlast_fmap_seq {B} (f : nat → B) n :
  0 < n → Py.getlast (f <$> seq 0 n) = inr (f (n - 1)).
Proof.
  intros Hn. destruct n as [|n]; [lia|].
  unfold Py.getlast. rewrite seq_S, fmap_app, fmap_cons, fmap_nil, last_snoc.
  simpl. by rewrite Nat.sub_0_r.
Qed.

Lemma rows_to_keep_retained good_sample_ids map_data n :
  0 < n → Forall (λ r, length r = n) map_data →
  rows_to_keep good_sample_ids map_data
  = inr (retained good_sample_ids map_data).
Proof.
  intros Hn Hall. unfold retained. induction Hall as [|r rows Hr _ IH]; [done|].
  destruct r as [|c r]; [simpl in Hr; lia|].
  simpl. rewrite IH. simpl. rewrite filter_cons. unfold id_in at 1. simpl.
  by case_bool_decide; [rewrite decide_True|rewrite decide_False].
Qed.

(** Whatever the rows are, the row filter raises [IndexError] or returns
    the retained rows. *)
Lemma rows_to_keep_outcome good_sample_ids map_data :
  match rows_to_keep good_sample_ids map_data with
  | inl e => e = IndexError
  | inr kept => kept = retained good_sample_ids map_data
  end.
Proof.
  unfold retained. induction map_data as [|row map_data IH]; [done|].
  cbn [rows_to_keep]. rewrite filter_cons. unfold Py.getitem.
  destruct (row !! 0) as [c|] eqn:Hc; [|done].
  cbn [mbind result_bind mret result_ret].
  destruct (rows_to_keep good_sample_ids map_data) as [e|kept]; [done|].
  cbn [mbind result_bind mret result_ret]. rewrite IH.
  assert (id_in good_sample_ids row ↔ c ∈ good_sample_ids) as Hid
    by (unfold id_in; by rewrite Hc).
  case_bool_decide; [rewrite decide_True|rewrite decide_False];
    by rewrite ?Hid.
Qed.

(** ** Distinct values of a column *)

Lemma len_set_le l : (Py.len_set l ≤ length l)%nat.
Proof.
  unfold Py.len_set. induction l as [|x l IH]; simpl; [done|].
  case_decide; simpl; lia.
Qed.

Lemma len_set_unique l : Py.len_set l = length l ↔ NoDup l.
Proof.
  unfold Py.len_set. induction l as [|x l IH]; simpl.
  - split; [constructor|done].
  - rewrite NoDup_cons. case_decide as Hx; simpl.
    + pose proof (len_set_le l) as Hle. unfold Py.len_set in Hle.
      split; [lia|]. intros [? _]. contradiction.
    + split.
      * intros Hlen. split; [done|]. apply IH. lia.
      * intros [_ Hnd]. f_equal. by apply IH.
Qed.

Lemma len_set_varied l :
  1 < Py.len_set l ↔ ∃ x y, x ∈ l ∧ y ∈ l ∧ x ≠ y.
Proof.
  unfold Py.len_set. split.
  - pose proof (NoDup_remove_dups l) as Hnd.
    destruct (remove_dups l) as [|x [|y k]] eqn:Hr; simpl; [lia..|].
    intros _. exists x, y.
    rewrite <- !(elem_of_remove_dups l), Hr.
    split; [by left|]. split; [right; by left|].
    apply NoDup_cons in Hnd as [Hx _]. intros ->. apply Hx. by left.
  - intros (x & y & Hx & Hy & Hne).
    rewrite <- (elem_of_remove_dups l) in Hx, Hy.
    destruct (remove_dups l) as [|a [|b k]]; simpl; [|exfalso|lia].
    + by apply elem_of_nil in Hx.
    + apply list_elem_of_singleton in Hx, Hy. congruence.
Qed.

Lemma column_survives_spec include_repeat_cols rows j :
  Is_true (column_survives include_repeat_cols (column rows j))
  ↔ survives include_repeat_cols rows j.
Proof.
  unfold column_survives, survives, varies.
  rewrite orb_True, bool_decide_spec, len_set_varied, Is_true_true.
  apply or_iff_compat_l. unfold column. split.
  - intros (x & y & Hx & Hy & Hne).
    apply list_elem_of_fmap in Hx as (r1 & -> & Hr1).
    apply list_elem_of_fmap in Hy as (r2 & -> & Hr2).
    apply Exists_exists. exists r1. split; [done|].
    apply Exists_exists. by exists r2.
  - intros Hex. apply Exists_exists in Hex as (r1 & Hr1 & Hex).
    apply Exists_exists in Hex as (r2 & Hr2 & Hne).
    exists (cell_at j r1), (cell_at j r2).
    split; [by apply list_elem_of_fmap_2|].
    split; [by apply list_elem_of_fmap_2|done].
Qed.

(** ** The loops of filter_mapping_file *)

Lemma getitem_cell (l : list string) j :
  j < length l → Py.getitem l j = inr (cell_at j l).
Proof.
  intros Hj. apply lookup_lt_is_Some in Hj as [x Hx].
  unfold Py.getitem, cell_at. by rewrite Hx.
Qed.

Lemma getlast_cell (l : list string) :
  0 < length l → Py.getlast l = inr (cell_at (length l - 1) l).
Proof.
  intros Hl. unfold Py.getlast, cell_at. rewrite last_lookup.
  replace (pred (length l)) with (length l - 1) by lia.
  destruct (lookup_lt_is_Some_2 l (length l - 1)) as [x ->]; [lia|done].
Qed.

Lemma retained_length good_sample_ids map_data n :
  Forall (λ r, length r = n) map_data →
  Forall (λ r, length r = n) (retained good_sample_ids map_data).
Proof.
  rewrite !Forall_forall. intros Hall r Hr.
  apply list_elem_of_filter in Hr as [_ Hr]. by apply Hall.
Qed.

Section loops.
Context (map_header : list string) (include_repeat_cols : bool).
Context (rows : list (list string)).

Lemma survives_true j :
  column_survives include_repeat_cols (column rows j) = true →
  survives include_repeat_cols rows j.
Proof. intros H. apply column_survives_spec. by rewrite H. Qed.

Lemma survives_false j :
  column_survives include_repeat_cols (column rows j) = false →
  ¬ survives include_repeat_cols rows j.
Proof. intros H Hs. apply column_survives_spec in Hs. by rewrite H in Hs. Qed.

Lemma plain_step_eq hs cs i l :
  plain_step map_header include_repeat_cols (hs, cs) (i, l)
  = if column_survives include_repeat_cols l
    then h ← Py.getitem map_header (i + 1); mret (hs ++ [h], cs ++ [l])
    else mret (hs, cs).
Proof. reflexivity. Qed.

Lemma rename_step_at c hs cs i l :
  Z.of_nat i = c →
  rename_step map_header include_repeat_cols c (hs, cs) (i, l)
  = r0 ← Py.getitem cs 0;
    if bool_decide (Py.len_set l ≠ length r0)
    then raise (ValueError not_unique_msg)
    else h ← Py.getitem map_header (i + 1);
         mret (hs ++ ["SampleID_was_" +:+ h], <[0 := l]> (cs ++ [r0])).
Proof. intros Hc. unfold rename_step. by rewrite bool_decide_true. Qed.

(** The loop without renaming appends the surviving columns. *)
Lemma plain_loop m i hs cs :
  i + m < length map_header →
  for_each (plain_step map_header include_repeat_cols) (hs, cs)
    (zip (seq i m) (column rows <$> seq (S i) m))
  = inr (hs ++ ((λ j, cell_at j map_header)
                <$> filter (survives include_repeat_cols rows) (seq (S i) m)),
         cs ++ (column rows
                <$> filter (survives include_repeat_cols rows) (seq (S i) m))).
Proof.
  revert i hs cs. induction m as [|m IH]; intros i hs cs Hlen.
  - simpl. by rewrite !app_nil_r.
  - cbn [seq fmap list_fmap zip zip_with]. rewrite for_each_cons, filter_cons.
    rewrite plain_step_eq.
    destruct (column_survives include_repeat_cols (column rows (S i))) eqn:Hs.
    + rewrite decide_True by by apply survives_true.
      rewrite Nat.add_1_r, getitem_cell by lia.
      cbn [mbind result_bind mret result_ret].
      rewrite IH by lia. rewrite !fmap_cons, <- !app_assoc. done.
    + rewrite decide_False by by apply survives_false.
      cbn [mbind result_bind mret result_ret]. rewrite IH by lia. done.
Qed.

Context (k : nat).

Abbreviation renamed_header := (renamed_name map_header k).
Abbreviation renamed_column := (demoted_column rows k).
Abbreviation kept_at :=
  (λ j, j = k ∨ survives include_repeat_cols rows j).

Lemma renamed_column_other c c' (l : list nat) :
  k ∉ l → renamed_column c <$> l = renamed_column c' <$> l.
Proof.
  induction l as [|j l IH]; [done|]. intros Hk.
  apply not_elem_of_cons in Hk as [Hne Hk].
  rewrite !fmap_cons, IH by done. unfold demoted_column.
  by rewrite !decide_False by done.
Qed.

Lemma rename_step_other st i l :
  S i ≠ k →
  rename_step map_header include_repeat_cols (Z.of_nat k - 1) st (i, l)
  = plain_step map_header include_repeat_cols st (i, l).
Proof.
  intros Hne. unfold rename_step. destruct st as [hs cs].
  rewrite bool_decide_false by lia. done.
Qed.

(** The loop with renaming, when the values of column [k] are unique. *)
Lemma rename_loop m i hs c0 cs :
  i + m < length map_header →
  length c0 = length rows →
  NoDup (column rows k) →
  for_each (rename_step map_header include_repeat_cols (Z.of_nat k - 1))
    (hs, c0 :: cs) (zip (seq i m) (column rows <$> seq (S i) m))
  = inr (hs ++ (renamed_header <$> filter kept_at (seq (S i) m)),
         (if decide (k ∈ seq (S i) m) then column rows k else c0)
         :: cs ++ (renamed_column c0 <$> filter kept_at (seq (S i) m))).
Proof.
  intros Hlen Hc0 Hnd. revert i hs c0 cs Hlen Hc0.
  induction m as [|m IH]; intros i hs c0 cs Hlen Hc0.
  - simpl. by rewrite !app_nil_r.
  - cbn [seq fmap list_fmap zip zip_with]. rewrite for_each_cons, filter_cons.
    destruct (decide (S i = k)) as [Hk|Hk].
    + (* the renamed column *)
      rewrite rename_step_at by lia. rewrite Nat.add_1_r, !Hk.
      rewrite decide_True by by left.
      cbn [Py.getitem lookup list_lookup mbind result_bind mret result_ret].
      rewrite bool_decide_false.
      2:{ intros Hne. apply Hne. rewrite Hc0.
          transitivity (length (column rows k));
            [by apply len_set_unique|apply length_fmap]. }
      rewrite getitem_cell by lia.
      cbn [mbind result_bind mret result_ret app insert list_insert].
      rewrite IH by (lia || apply length_fmap).
      assert (k ∉ seq (S k) m) as Hnin.
      { intros Hin. apply elem_of_seq in Hin. lia. }
      assert (k ∉ filter kept_at (seq (S k) m)) as Hnin'.
      { intros Hin. by apply list_elem_of_filter in Hin as [_ Hin]. }
      rewrite (renamed_column_other (column rows k) c0) by done.
      rewrite (decide_True (P:=k ∈ k :: seq (S k) m)) by by left.
      rewrite (decide_False (P:=k ∈ seq (S k) m)) by done.
      rewrite !fmap_cons, <- !app_assoc.
      unfold renamed_name at 2. unfold demoted_column at 2.
      by rewrite !decide_True by done.
    + rewrite rename_step_other by done. rewrite plain_step_eq.
      assert (k ∈ S i :: seq (S (S i)) m ↔ k ∈ seq (S (S i)) m) as Hiff.
      { rewrite elem_of_cons. split; [|by right]. intros [?|?]; [lia|done]. }
      destruct (column_survives include_repeat_cols (column rows (S i)))
        eqn:Hs.
      * rewrite decide_True by (right; by apply survives_true).
        rewrite Nat.add_1_r, getitem_cell by lia.
        cbn [mbind result_bind mret result_ret]. rewrite <- app_comm_cons.
        rewrite IH by (done || lia). rewrite !fmap_cons, <- !app_assoc.
        unfold renamed_name at 2. unfold demoted_column at 2.
        rewrite !(decide_False (P:=S i = k)) by done.
        destruct (decide (k ∈ S i :: seq (S (S i)) m)),
          (decide (k ∈ seq (S (S i)) m)); tauto || done.
      * rewrite decide_False.
        2:{ intros [?|?]; [lia|]. by eapply survives_false. }
        cbn [mbind result_bind mret result_ret]. rewrite IH by (done || lia).
        destruct (decide (k ∈ S i :: seq (S (S i)) m)),
          (decide (k ∈ seq (S (S i)) m)); tauto || done.
Qed.

(** The loop with renaming, when the values of column [k] repeat. *)
Lemma rename_loop_fail m i hs c0 cs :
  i + m < length map_header →
  length c0 = length rows →
  ¬ NoDup (column rows k) →
  (S i ≤ k ≤ i + m)%nat →
  for_each (rename_step map_header include_repeat_cols (Z.of_nat k - 1))
    (hs, c0 :: cs) (zip (seq i m) (column rows <$> seq (S i) m))
  = inl (ValueError not_unique_msg).
Proof.
  intros Hlen Hc0 Hnd. revert i hs cs Hlen.
  induction m as [|m IH]; intros i hs cs Hlen Hk; [lia|].
  cbn [seq fmap list_fmap zip zip_with]. rewrite for_each_cons.
  destruct (decide (S i = k)) as [Heq|Hne].
  - rewrite rename_step_at by lia.
    cbn [Py.getitem lookup list_lookup mbind result_bind mret result_ret].
    rewrite bool_decide_true; [done|].
    intros Hlen'. apply Hnd, len_set_unique.
    rewrite <- Heq, Hlen', Hc0. unfold column. by rewrite length_fmap.
  - rewrite rename_step_other by done. rewrite plain_step_eq.
    destruct (column_survives include_repeat_cols (column rows (S i))).
    + rewrite Nat.add_1_r, getitem_cell by lia.
      cbn [mbind result_bind mret result_ret]. apply IH; lia.
    + cbn [mbind result_bind mret result_ret]. apply IH; lia.
Qed.
End loops.

(** ** Theorems on filter_mapping_file *)

(** On a mapping file with a retained row, the function is the loop over
    the interior columns of the retained rows, between the first column
    and the last. *)
Lemma filter_mapping_file_loop map_data map_header good_sample_ids
    include_repeat_cols column_rename_ids :
  let rows := retained good_sample_ids map_data in
  let n := length map_header in
  let cols := zip (seq 0 (n - 2)) (column rows <$> seq 1 (n - 2)) in
  table_wf map_header map_data →
  rows ≠ [] →
  filter_mapping_file map_data map_header good_sample_ids
    include_repeat_cols column_rename_ids
  = st ← match truthy column_rename_ids with
         | Some c =>
             for_each (rename_step map_header include_repeat_cols (c - 1))
               ([cell_at 0 map_header], [column rows 0]) cols
         | None =>
             for_each (plain_step map_header include_repeat_cols)
               ([cell_at 0 map_header], [column rows 0]) cols
         end;
    mret (st.1 ++ [cell_at (n - 1) map_header],
          Py.zip_star (st.2 ++ [column rows (n - 1)])).
Proof.
  intros rows n cols [Hne Hall] Hrows.
  assert (0 < n) as Hn by (subst n; destruct map_header; simpl; [done|lia]).
  unfold filter_mapping_file.
  rewrite (rows_to_keep_retained _ _ n) by done.
  cbn [mbind result_bind mret result_ret]. fold rows.
  rewrite (zip_star_columns rows n) by (done || by apply retained_length).
  rewrite getitem_cell by done. cbn [mbind result_bind].
  assert (Py.getitem (column rows <$> seq 0 n) 0 = inr (column rows 0)) as ->.
  { destruct n; [lia|]. reflexivity. }
  cbn [mbind result_bind]. unfold Py.enumerate.
  rewrite interior_fmap_seq, length_fmap. unfold interior_positions.
  rewrite length_seq. fold cols.
  rewrite getlast_cell, getlast_fmap_seq by done. fold n.
  destruct (truthy column_rename_ids) as [c|];
    (destruct (for_each _ _ cols) as [e|[headers result]]; [done|]);
    reflexivity.
Qed.

(** C4: on a mapping file with a retained row, without a column to rename,
    the header and the rows returned are the header and the retained rows
    cut down to: the first column, then the interior columns that survive
    (repeats are included, or two retained rows differ there) in their
    order, then the last column. *)
Theorem filter_mapping_file_columns map_data map_header good_sample_ids
    include_repeat_cols :
  let rows := retained good_sample_ids map_data in
  let js := kept_positions include_repeat_cols rows (length map_header) in
  table_wf map_header map_data →
  rows ≠ [] →
  filter_mapping_file map_data map_header good_sample_ids
    include_repeat_cols None
  = inr (pick js map_header, pick js <$> rows).
Proof.
  intros rows js Hwf Hrows.
  rewrite filter_mapping_file_loop by done. fold rows.
  assert (0 < length map_header) as Hn.
  { destruct Hwf as [Hne _]. destruct map_header; simpl; [done|lia]. }
  cbn [truthy]. rewrite (plain_loop map_header include_repeat_cols rows) by lia.
  cbn [mbind result_bind mret result_ret fst snd app].
  rewrite <- (zip_star_picked rows js) by done.
  unfold js, kept_positions, interior_positions, pick.
  by rewrite !fmap_cons, !fmap_app.
Qed.

Lemma filter_mapping_file_columns_witness :
  filter_mapping_file example_rows example_header ["S1"; "S3"] false None
  = inr (pick (kept_positions false (retained ["S1"; "S3"] example_rows) 4)
           example_header,
         pick (kept_positions false (retained ["S1"; "S3"] example_rows) 4)
         <$> retained ["S1"; "S3"] example_rows).
Proof.
  apply (filter_mapping_file_columns example_rows example_header
           ["S1"; "S3"] false).
  - split; [discriminate|]. by repeat constructor.
  - vm_compute. discriminate.
Defined.

(** C5, as the code has it: on a mapping file with a retained row, when
    [column_rename_ids] is the position [k] of an interior column whose
    values are unique among the retained rows, the rows returned start
    with the cell of column [k], have the identifier cell at the place of
    column [k], which is kept whether it survives or not, and the header
    keeps its first name and names the demoted column [SampleID_was_]
    followed by the name column [k] had. *)
Theorem filter_mapping_file_rename map_data map_header good_sample_ids
    include_repeat_cols (k : nat) :
  let rows := retained good_sample_ids map_data in
  let n := length map_header in
  let js := kept_interior include_repeat_cols rows n k in
  table_wf map_header map_data →
  rows ≠ [] →
  k ∈ interior_positions n →
  NoDup (column rows k) →
  filter_mapping_file map_data map_header good_sample_ids
    include_repeat_cols (Some (Z.of_nat k))
  = inr (cell_at 0 map_header
           :: (renamed_name map_header k <$> js)
           ++ [cell_at (n - 1) map_header],
         (λ row, cell_at k row
                   :: (demoted_cell k row <$> js)
                   ++ [cell_at (n - 1) row])
         <$> rows).
Proof.
  intros rows n js Hwf Hrows Hk Hnd.
  apply elem_of_seq in Hk.
  rewrite filter_mapping_file_loop by done. fold rows n.
  assert (truthy (Some (Z.of_nat k)) = Some (Z.of_nat k)) as ->.
  { destruct k; [lia|done]. }
  rewrite (rename_loop map_header include_repeat_cols rows k);
    [|lia|apply length_fmap|done].
  rewrite decide_True by (apply elem_of_seq; lia).
  cbn [mbind result_bind mret result_ret fst snd app]. f_equal. f_equal.
  set (js' := k :: ((λ j, if decide (j = k) then 0 else j) <$> js) ++ [n - 1]).
  transitivity (Py.zip_star (column rows <$> js')).
  - f_equal. unfold js'. rewrite fmap_cons, fmap_app, <- list_fmap_compose.
    do 2 f_equal. apply list_fmap_ext.
    intros _ j _. unfold demoted_column. simpl. by destruct (decide (j = k)).
  - rewrite zip_star_picked by done. apply list_fmap_ext. intros _ row _.
    unfold pick, js'. rewrite fmap_cons, fmap_app, <- list_fmap_compose.
    do 2 f_equal. apply list_fmap_ext. intros _ j _.
    unfold demoted_cell. simpl. by destruct (decide (j = k)).
Qed.

Lemma filter_mapping_file_rename_witness :
  filter_mapping_file example_rows example_header ["S1"; "S3"] false
    (Some (Z.of_nat 1))
  = inr (cell_at 0 example_header
           :: (renamed_name example_header 1
               <$> kept_interior false (retained ["S1"; "S3"] example_rows) 4 1)
           ++ [cell_at (4 - 1) example_header],
         (λ row, cell_at 1 row
                   :: (demoted_cell 1 row
                       <$> kept_interior false
                             (retained ["S1"; "S3"] example_rows) 4 1)
                   ++ [cell_at (4 - 1) row])
         <$> retained ["S1"; "S3"] example_rows).
Proof.
  apply (filter_mapping_file_rename example_rows example_header
           ["S1"; "S3"] false 1).
  - split; [discriminate|]. by repeat constructor.
  - vm_compute. discriminate.
  - by left.
  - apply (bool_decide_unpack _). vm_compute. exact I.
Defined.

(** C5 as stated fails when no row is retained: on a mapping file and an
    interior column, no value of which repeats among the (zero) retained
    rows, the function raises [IndexError] instead of returning a
    table. *)
Lemma filter_mapping_file_rename_no_rows :
  table_wf example_header example_rows
  ∧ 1 ∈ interior_positions (length example_header)
  ∧ NoDup (column (retained ["S9"] example_rows) 1)
  ∧ filter_mapping_file example_rows example_header ["S9"] false (Some 1%Z)
    = inl IndexError.
Proof.
  split; [split; [discriminate|by repeat constructor]|].
  split; [by left|]. split; [constructor|].
  vm_compute. reflexivity.
Qed.

(** C6: on a mapping file, when [column_rename_ids] is the position [k] of
    an interior column whose values are not unique among the retained
    rows, the function raises the [ValueError] of the uniqueness test: it
    returns no table. *)
Theorem filter_mapping_file_not_unique map_data map_header good_sample_ids
    include_repeat_cols (k : nat) :
  let rows := retained good_sample_ids map_data in
  table_wf map_header map_data →
  k ∈ interior_positions (length map_header) →
  ¬ NoDup (column rows k) →
  filter_mapping_file map_data map_header good_sample_ids
    include_repeat_cols (Some (Z.of_nat k))
  = inl (ValueError not_unique_msg).
Proof.
  intros rows Hwf Hk Hnd. apply elem_of_seq in Hk.
  assert (rows ≠ []) as Hrows.
  { intros Hnil. apply Hnd. rewrite Hnil. constructor. }
  rewrite filter_mapping_file_loop by done. fold rows.
  assert (truthy (Some (Z.of_nat k)) = Some (Z.of_nat k)) as ->.
  { destruct k; [lia|done]. }
  rewrite (rename_loop_fail map_header include_repeat_cols rows k);
    [done|lia|apply length_fmap|done|lia].
Qed.

Lemma filter_mapping_file_not_unique_witness :
  filter_mapping_file example_rows example_header ["S1"; "S3"] false
    (Some (Z.of_nat 2))
  = inl (ValueError not_unique_msg).
Proof.
  apply (filter_mapping_file_not_unique example_rows example_header
           ["S1"; "S3"] false 2).
  - split; [discriminate|]. by repeat constructor.
  - right. by left.
  - intros Hnd. vm_compute in Hnd.
    apply NoDup_cons in Hnd as [Hin _]. apply Hin. by left.
Defined.

(** C9: when no row of the table has its identifier cell in
    [good_sample_ids], the function raises [IndexError] and returns no
    table; so whenever it returns, some row is retained. *)
Theorem filter_mapping_file_no_rows map_data map_header good_sample_ids
    include_repeat_cols column_rename_ids :
  (retained good_sample_ids map_data = [] →
   filter_mapping_file map_data map_header good_sample_ids
     include_repeat_cols column_rename_ids = inl IndexError)
  ∧ (∀ out,
       filter_mapping_file map_data map_header good_sample_ids
         include_repeat_cols column_rename_ids = inr out →
       ∃ row c,
         row ∈ map_data ∧ row !! 0 = Some c ∧ c ∈ good_sample_ids).
Proof.
  assert (retained good_sample_ids map_data = [] →
          filter_mapping_file map_data map_header good_sample_ids
            include_repeat_cols column_rename_ids = inl IndexError) as Hfail.
  { intros Hnone. unfold filter_mapping_file.
    pose proof (rows_to_keep_outcome good_sample_ids map_data) as Hkeep.
    destruct (rows_to_keep good_sample_ids map_data) as [e|kept].
    - by rewrite Hkeep.
    - rewrite Hkeep, Hnone. cbn [mbind result_bind Py.zip_star].
      destruct (Py.getitem map_header 0) as [e|h0] eqn:Hh; [|done].
      by apply getitem_err in Hh as ->. }
  split; [exact Hfail|]. intros out Hout.
  destruct (retained good_sample_ids map_data) as [|row rows] eqn:Hret.
  { rewrite Hfail in Hout by done. discriminate. }
  assert (row ∈ retained good_sample_ids map_data) as Hrow
    by (rewrite Hret; by left).
  apply list_elem_of_filter in Hrow as [Hid Hrow]. unfold id_in in Hid.
  destruct (row !! 0) as [c|] eqn:Hc; [|done]. by exists row, c.
Qed.

Lemma filter_mapping_file_no_rows_witness :
  filter_mapping_file example_rows example_header ["S9"] true None
  = inl IndexError
  ∧ ∃ row c,
      row ∈ example_rows ∧ row !! 0 = Some c ∧ c ∈ ["S1"; "S3"].
Proof.
  split.
  - apply (proj1 (filter_mapping_file_no_rows example_rows example_header
                    ["S9"] true None)).
    vm_compute. reflexivity.
  - apply (proj2 (filter_mapping_file_no_rows example_rows example_header
                    ["S1"; "S3"] false None)
             (["SampleID"; "Study"; "Description"],
              [ ["S1"; "Dog"; "d1"]; ["S3"; "Cat"; "d3"] ])).
    vm_compute. reflexivity.
Defined.

(** * Further properties *)

(** ** Lists and filters *)

Lemma filter_ext_in {A} (P Q : A → Prop) `{!∀ x, Decision (P x)}
    `{!∀ x, Decision (Q x)} (l : list A) :
  (∀ x, x ∈ l → P x ↔ Q x) → filter P l = filter Q l.
Proof.
  induction l as [|x l IH]; intros Hext; [done|].
  rewrite !filter_cons.
  assert (filter P l = filter Q l) as ->.
  { apply IH. intros y Hy. apply Hext. by right. }
  destruct (decide (P x)) as [HP|HP], (decide (Q x)) as [HQ|HQ]; try done;
    exfalso; apply (Hext x) in HP || apply HP, (Hext x); (by left) || done.
Qed.

Lemma filter_all {A} (P : A → Prop) `{!∀ x, Decision (P x)} (l : list A) :
  Forall P l → filter P l = l.
Proof.
  induction 1 as [|x l Hx _ IH]; [done|].
  by rewrite filter_cons, decide_True, IH.
Qed.

Lemma filter_none {A} (P : A → Prop) `{!∀ x, Decision (P x)} (l : list A) :
  Forall (λ x, ¬ P x) l → filter P l = [].
Proof.
  induction 1 as [|x l Hx _ IH]; [done|].
  by rewrite filter_cons, decide_False, IH.
Qed.

Lemma filter_sublist_impl {A} (P Q : A → Prop) `{!∀ x, Decision (P x)}
    `{!∀ x, Decision (Q x)} (l : list A) :
  (∀ x, x ∈ l → P x → Q x) → filter P l `sublist_of` filter Q l.
Proof.
  induction l as [|x l IH]; intros Himp; [done|].
  assert (filter P l `sublist_of` filter Q l) as Hsub.
  { apply IH. intros y Hy. apply Himp. by right. }
  rewrite !filter_cons.
  destruct (decide (P x)) as [HP|HP], (decide (Q x)) as [HQ|HQ].
  - by constructor.
  - exfalso. apply HQ, Himp; [by left|done].
  - by constructor.
  - done.
Qed.

(** ** More on get_sample_ids *)

Lemma first_cells ids (rows : list (list string)) :
  Forall2 (λ id row, row !! 0 = Some id) ids rows → ids = cell_at 0 <$> rows.
Proof.
  induction 1 as [|id row ids rows Hid _ IH]; [done|].
  rewrite fmap_cons, <- IH. unfold cell_at. by rewrite Hid.
Qed.

(** The identifiers returned, as a function of the table. *)
Lemma get_sample_ids_filter map_data map_header (states : states_t) :
  table_wf map_header map_data →
  (∀ s, s ∈ states.*1 → s ∈ map_header) →
  get_sample_ids map_data map_header states
  = inr (cell_at 0 <$> filter (row_included map_header states) map_data).
Proof.
  intros Hwf Hcols. unfold get_sample_ids.
  destruct (column_pairs_ok map_header (states.*1)) as (pairs & -> & Hntc).
  { by apply Forall_forall. }
  simpl. destruct (rows_loop (list_to_map pairs) map_header states map_data [])
    as (ids & -> & Hids); [done..|].
  simpl. f_equal. by apply first_cells.
Qed.

Lemma cell_defined map_header row s :
  length row = length map_header → s ∈ map_header →
  ∃ c, cell map_header row s = Some c.
Proof.
  intros Hlen Hs. destruct (index_present _ _ Hs) as (i & _ & Hfind).
  unfold cell. rewrite Hfind. simpl.
  apply list_find_Some in Hfind as (Hi & _ & _).
  apply lookup_lt_Some in Hi. apply lookup_lt_is_Some. lia.
Qed.

(** X1: the order in which the dict [states] yields its items does not
    change the identifiers returned. *)
Theorem get_sample_ids_any_order map_data map_header
    (states states' : states_t) :
  table_wf map_header map_data →
  (∀ s, s ∈ states.*1 → s ∈ map_header) →
  states ≡ₚ states' →
  get_sample_ids map_data map_header states'
  = get_sample_ids map_data map_header states.
Proof.
  intros Hwf Hcols Hperm.
  assert (∀ s, s ∈ states'.*1 → s ∈ map_header) as Hcols'.
  { intros s Hs. apply Hcols. by rewrite Hperm. }
  rewrite (get_sample_ids_filter _ _ states') by done.
  rewrite (get_sample_ids_filter _ _ states) by done.
  do 2 f_equal. apply list_filter_iff. intros row.
  unfold row_included. by rewrite Hperm.
Qed.

Lemma get_sample_ids_any_order_witness :
  get_sample_ids example_rows example_header
    [("BodySite", ["Palm"]); ("Study", ["Dog"; "Cat"])]
  = get_sample_ids example_rows example_header
      [("Study", ["Dog"; "Cat"]); ("BodySite", ["Palm"])].
Proof.
  apply get_sample_ids_any_order.
  - split; [discriminate|]. by repeat constructor.
  - intros s Hs. cbn in Hs.
    apply elem_of_cons in Hs as [->|Hs]; [repeat constructor|].
    apply list_elem_of_singleton in Hs as ->. repeat constructor.
  - apply Permutation_swap.
Defined.

(** X2: without constraints every row is selected: the result is the
    first cell of every row, whatever the header is. *)
Theorem get_sample_ids_no_constraint map_data map_header :
  Forall (λ row, row ≠ []) map_data →
  get_sample_ids map_data map_header [] = inr (cell_at 0 <$> map_data).
Proof.
  intros Hrows. unfold get_sample_ids. simpl.
  enough (∀ acc, for_each (row_step ∅ []) acc map_data
                 = inr (acc ++ (cell_at 0 <$> map_data))) as -> by done.
  induction Hrows as [|row rows Hrow _ IH]; intros acc.
  - simpl. by rewrite app_nil_r.
  - destruct row as [|c row]; [done|].
    assert (row_step ∅ [] acc (c :: row) = inr (acc ++ [c])) as Hstep
      by reflexivity.
    rewrite for_each_cons, Hstep. cbn [mbind result_bind].
    by rewrite IH, fmap_cons, <- app_assoc.
Qed.

Lemma get_sample_ids_no_constraint_witness :
  get_sample_ids example_rows example_header []
  = inr (cell_at 0 <$> example_rows).
Proof. apply get_sample_ids_no_constraint. by repeat constructor. Defined.

Lemma include_step_at (ntc : gmap string nat) row b s vals i :
  ntc !! s = Some i →
  include_step ntc row b (s, vals)
  = curr_state ← Py.getitem row i;
    mret (b && (bool_decide (curr_state ∈ vals) || bool_decide ("*" ∈ vals))
          && negb (bool_decide ("!" +:+ curr_state ∈ vals))).
Proof. intros Hi. unfold include_step. by rewrite Hi. Qed.

Lemma include_loop_short (ntc : gmap string nat) row sts s i b :
  (∀ s', s' ∈ sts.*1 → is_Some (ntc !! s')) →
  s ∈ sts.*1 → ntc !! s = Some i → (length row ≤ i)%nat →
  for_each (include_step ntc row) b sts = inl IndexError.
Proof.
  intros Hntc Hs Hi Hlen. revert b.
  induction sts as [|[s' vals] sts IH]; intros b.
  - by apply elem_of_nil in Hs.
  - destruct (Hntc s') as [i' Hi']; [by left|].
    rewrite for_each_cons, (include_step_at _ _ _ _ _ i') by done.
    destruct (Py.getitem row i') as [e|c] eqn:Hg;
      cbn [mbind result_bind mret result_ret].
    + by apply getitem_err in Hg as ->.
    + apply IH.
      * intros s'' Hs''. apply Hntc. by right.
      * cbn in Hs. apply elem_of_cons in Hs as [->|Hs]; [|done].
        exfalso. rewrite Hi in Hi'. injection Hi' as <-.
        unfold Py.getitem in Hg.
        rewrite (lookup_ge_None_2 row i) in Hg by done. discriminate.
Qed.

Lemma row_step_err (ntc : gmap string nat) (states : states_t) acc row e :
  (∀ s, s ∈ states.*1 → is_Some (ntc !! s)) →
  row_step ntc states acc row = inl e → e = IndexError.
Proof.
  intros Hntc. unfold row_step.
  destruct (for_each _ true states) as [e'|b] eqn:Hinner; simpl.
  - intros [= <-]. revert Hinner. generalize true.
    induction states as [|[s vals] sts IH]; intros b; [discriminate|].
    destruct (Hntc s) as [i Hi]; [by left|].
    rewrite for_each_cons, (include_step_at _ _ _ _ _ i) by done.
    destruct (Py.getitem row i) as [e|c] eqn:Hg;
      cbn [mbind result_bind mret result_ret].
    + intros [= <-]. by apply getitem_err in Hg.
    + apply IH. intros s' Hs'. apply Hntc. by right.
  - destruct b; [|discriminate].
    destruct (Py.getitem row 0) as [e'|c] eqn:Hg; simpl; [|discriminate].
    intros [= <-]. by apply getitem_err in Hg.
Qed.

(** X3: every row is read at every constrained column, whether or not
    another column already excludes it: a row too short for the column of
    some constraint makes the call raise [IndexError]. *)
Theorem get_sample_ids_short_row map_data map_header (states : states_t)
    row s i :
  (∀ s', s' ∈ states.*1 → s' ∈ map_header) →
  row ∈ map_data →
  s ∈ states.*1 →
  list_find (λ h, h = s) map_header = Some (i, s) →
  (length row ≤ i)%nat →
  get_sample_ids map_data map_header states = inl IndexError.
Proof.
  intros Hcols Hrow Hs Hfind Hlen. unfold get_sample_ids.
  destruct (column_pairs_ok map_header (states.*1)) as (pairs & -> & Hntc).
  { by apply Forall_forall. }
  simpl. set (ntc := list_to_map pairs : gmap string nat).
  assert (∀ s', s' ∈ states.*1 → is_Some (ntc !! s')) as Htot.
  { intros s' Hs'. destruct (Hntc s' Hs') as (i' & Hi' & _). by exists i'. }
  assert (ntc !! s = Some i) as Hi.
  { destruct (Hntc s Hs) as (i' & Hi' & Hfind').
    rewrite Hfind in Hfind'. injection Hfind' as <-. exact Hi'. }
  generalize (@nil string).
  induction map_data as [|row' rows IH]; intros acc.
  - by apply elem_of_nil in Hrow.
  - rewrite for_each_cons.
    destruct (row_step ntc states acc row') as [e|acc'] eqn:Hstep; simpl.
    + by apply row_step_err in Hstep as ->.
    + apply elem_of_cons in Hrow as [->|Hrow]; [|by apply IH].
      unfold row_step in Hstep.
      rewrite (include_loop_short ntc row' states s i) in Hstep by done.
      discriminate.
Qed.

Lemma get_sample_ids_short_row_witness :
  get_sample_ids [ ["S1"; "Dog"; "Palm"]; ["S2"] ]
    ["SampleID"; "Study"; "BodySite"]
    [("Study", ["Cat"]); ("BodySite", ["Palm"])]
  = inl IndexError.
Proof.
  apply (get_sample_ids_short_row _ _ _ ["S2"] "BodySite" 2).
  - intros s Hs. cbn in Hs.
    apply elem_of_cons in Hs as [->|Hs]; [repeat constructor|].
    apply list_elem_of_singleton in Hs as ->. repeat constructor.
  - right. by left.
  - right. by left.
  - reflexivity.
  - simpl. lia.
Defined.

(** X4: the identifiers returned are a sub-list of the identifier column,
    in the order of the rows; when the identifiers of the table are
    unique, so are the ones returned. *)
Theorem get_sample_ids_sublist map_data map_header (states : states_t) ids :
  table_wf map_header map_data →
  (∀ s, s ∈ states.*1 → s ∈ map_header) →
  get_sample_ids map_data map_header states = inr ids →
  ids `sublist_of` column map_data 0
  ∧ (NoDup (column map_data 0) → NoDup ids).
Proof.
  intros Hwf Hcols. rewrite get_sample_ids_filter by done. intros [= <-].
  assert (cell_at 0 <$> filter (row_included map_header states) map_data
          `sublist_of` column map_data 0) as Hsub.
  { unfold column. apply fmap_sublist, sublist_filter. }
  split; [done|]. intros Hnd. by eapply sublist_NoDup.
Qed.

Lemma get_sample_ids_sublist_witness :
  ["S1"; "S3"] `sublist_of` column example_rows 0
  ∧ (NoDup (column example_rows 0) → NoDup ["S1"; "S3"]).
Proof.
  apply (get_sample_ids_sublist example_rows example_header
           [("BodySite", ["Palm"])]).
  - split; [discriminate|]. by repeat constructor.
  - intros s Hs. apply list_elem_of_singleton in Hs as ->.
    repeat constructor.
  - vm_compute. reflexivity.
Defined.

(** X5: constraints on further columns only remove identifiers: the
    result under [states ++ more] is a sub-list of the result under
    [states]. *)
Theorem get_sample_ids_more_constraints map_data map_header
    (states more : states_t) ids ids' :
  table_wf map_header map_data →
  (∀ s, s ∈ (states ++ more).*1 → s ∈ map_header) →
  get_sample_ids map_data map_header states = inr ids →
  get_sample_ids map_data map_header (states ++ more) = inr ids' →
  ids' `sublist_of` ids.
Proof.
  intros Hwf Hcols.
  assert (∀ s, s ∈ states.*1 → s ∈ map_header) as Hcols'.
  { intros s Hs. apply Hcols. rewrite fmap_app. apply elem_of_app. by left. }
  rewrite (get_sample_ids_filter _ _ states) by done.
  rewrite (get_sample_ids_filter _ _ (states ++ more)) by done.
  intros [= <-] [= <-]. apply fmap_sublist, filter_sublist_impl.
  intros row _. unfold row_included. rewrite Forall_app. by intros [? _].
Qed.

Lemma get_sample_ids_more_constraints_witness :
  ["S1"] `sublist_of` ["S1"; "S3"].
Proof.
  apply (get_sample_ids_more_constraints example_rows example_header
           [("BodySite", ["Palm"])] [("Study", ["Dog"])]).
  - split; [discriminate|]. by repeat constructor.
  - intros s Hs. cbn in Hs.
    apply elem_of_cons in Hs as [->|Hs]; [repeat constructor|].
    apply list_elem_of_singleton in Hs as ->. repeat constructor.
  - vm_compute. reflexivity.
  - vm_compute. reflexivity.
Defined.

Lemma exclusion_token_inj c x : "!" +:+ c = "!" +:+ x → c = x.
Proof. intros Heq. cbv [String.append] in Heq. by injection Heq. Qed.

(** X6: the constraint [s:*,!x] selects exactly the rows whose cell in
    column [s] is not [x]. *)
Theorem get_sample_ids_all_but map_data map_header s x :
  table_wf map_header map_data →
  s ∈ map_header →
  get_sample_ids map_data map_header [(s, ["*"; "!" +:+ x])]
  = inr (cell_at 0
         <$> filter (λ row, cell map_header row s ≠ Some x) map_data).
Proof.
  intros Hwf Hs. rewrite get_sample_ids_filter; [|done|].
  2:{ intros s' Hs'. by apply list_elem_of_singleton in Hs' as ->. }
  do 2 f_equal. apply filter_ext_in. intros row Hrow.
  destruct Hwf as [_ Hlen]. rewrite Forall_forall in Hlen.
  destruct (cell_defined map_header row s (Hlen row Hrow) Hs) as [c Hc].
  unfold row_included. rewrite Forall_singleton. simpl. rewrite Hc. split.
  - intros (c' & [= <-] & _ & Hnot) [= ->]. apply Hnot. right. by left.
  - intros Hne. exists c. split; [done|]. split; [right; by left|].
    intros Hin. apply elem_of_cons in Hin as [Heq|Hin]; [discriminate Heq|].
    apply list_elem_of_singleton, exclusion_token_inj in Hin.
    apply Hne. by rewrite Hin.
Qed.

Lemma get_sample_ids_all_but_witness :
  get_sample_ids example_rows example_header [("Study", ["*"; "!Dog"])]
  = inr (cell_at 0
         <$> filter (λ row, cell example_header row "Study" ≠ Some "Dog")
               example_rows).
Proof.
  apply (get_sample_ids_all_but example_rows example_header "Study" "Dog").
  - split; [discriminate|]. by repeat constructor.
  - repeat constructor.
Defined.

(** X7: exclusion tokens alone select nothing: when every token of the
    only constraint starts with [!] and no cell of its column does, no
    identifier is returned, not even those of the rows that carry none of
    the excluded values. *)
Theorem get_sample_ids_exclusion_only map_data map_header s vals :
  table_wf map_header map_data →
  s ∈ map_header →
  Forall (λ v, String.prefix "!" v = true) vals →
  (∀ row c, row ∈ map_data → cell map_header row s = Some c →
            String.prefix "!" c = false) →
  get_sample_ids map_data map_header [(s, vals)] = inr [].
Proof.
  intros Hwf Hs Hvals Hcells. rewrite get_sample_ids_filter; [|done|].
  2:{ intros s' Hs'. by apply list_elem_of_singleton in Hs' as ->. }
  rewrite filter_none; [done|]. apply Forall_forall. intros row Hrow.
  unfold row_included. rewrite Forall_singleton. simpl.
  intros (c & Hc & [Hin|Hin] & _).
  - rewrite Forall_forall in Hvals. apply Hvals in Hin.
    rewrite (Hcells row c) in Hin by done. discriminate.
  - rewrite Forall_forall in Hvals. apply Hvals in Hin. discriminate.
Qed.

Lemma get_sample_ids_exclusion_only_witness :
  get_sample_ids example_rows example_header [("Study", ["!Dog"])] = inr [].
Proof.
  apply get_sample_ids_exclusion_only.
  - split; [discriminate|]. by repeat constructor.
  - repeat constructor.
  - by repeat constructor.
  - intros row c Hrow Hc. unfold example_rows in Hrow.
    repeat (apply elem_of_cons in Hrow as [->|Hrow];
            [by injection Hc as <-|]).
    by apply elem_of_nil in Hrow.
Defined.

(** ** More on filter_fasta *)










(** ** Tokens *)

Lemma mapM_inr {A B} (f : A → result B) l k :
  mapM f l = inr k ↔ Forall2 (λ x y, f x = inr y) l k.
Proof.
  revert k. induction l as [|x l IH]; intros k.
  - split.
    + intros [= <-]. constructor.
    + intros Hk. by apply Forall2_nil_inv_l in Hk as ->.
  - rewrite mapM_cons. split.
    + destruct (f x) as [e|y] eqn:Hx; [discriminate|].
      cbn [mbind result_bind].
      destruct (mapM f l) as [e|k'] eqn:Hl; [discriminate|].
      intros [= <-]. constructor; [done|]. by apply IH.
    + intros Hk. apply Forall2_cons_inv_l in Hk as (y & k' & Hx & Hl & ->).
      rewrite Hx. cbn [mbind result_bind].
      apply IH in Hl. by rewrite Hl.
Qed.

Lemma mapM_total {A B} (f : A → result B) (g : A → B) l :
  Forall (λ x, f x = inr (g x)) l → mapM f l = inr (g <$> l).
Proof.
  intros Hall. apply mapM_inr. induction Hall; by constructor.
Qed.

Lemma mapM_raises {A B} (f : A → result B) e0 l :
  (∀ x e, f x = inl e → e = e0) →
  Exists (λ x, ∃ e, f x = inl e) l → mapM f l = inl e0.
Proof.
  intros Herr. induction 1 as [x l [e He]|x l _ IH]; rewrite mapM_cons.
  - rewrite He. apply Herr in He as ->. done.
  - destruct (f x) as [e|y] eqn:Hx.
    + by apply Herr in Hx as ->.
    + cbn [mbind result_bind]. by rewrite IH.
Qed.

Lemma nospace_snoc cur c :
  nospace cur = true → Py.isspace c = false →
  nospace (cur +:+ String c EmptyString) = true.
Proof.
  intros Hcur Hc. induction cur as [|a cur IH]; simpl in *.
  - by rewrite Hc.
  - apply andb_true_iff in Hcur as [-> Hcur]. by apply IH.
Qed.




(** The words of [split] have no whitespace and are not empty. *)
Lemma split_go_tokens cur s :
  nospace cur = true →
  Forall (λ t, nospace t = true ∧ t ≠ EmptyString) (Py.split_go cur s).
Proof.
  revert cur. induction s as [|c s IH]; intros cur Hcur; simpl.
  - case_decide; by repeat constructor.
  - destruct (Py.isspace c) eqn:Hc.
    + case_decide; [by apply IH|]. constructor; [done|]. by apply IH.
    + apply IH. by apply nospace_snoc.
Qed.

Lemma first_token_is_token s t :
  first_token s = inr t → nospace t = true ∧ t ≠ EmptyString.
Proof.
  unfold first_token, Py.split, Py.getitem.
  pose proof (split_go_tokens EmptyString s eq_refl) as Hall.
  destruct (Py.split_go EmptyString s) as [|t' l]; [discriminate|].
  intros [= <-]. by apply Forall_cons in Hall as [? _].
Qed.




(** [strip] leaves a word of [split] as it is. *)
Lemma strip_token t : nospace t = true → strip t = t.
Proof.
  intros Ht. unfold strip.
  assert (lstrip t = t) as ->.
  { destruct t as [|c t]; [done|]. simpl in *.
    apply andb_true_iff in Ht as [Hc _]. apply negb_true_iff in Hc.
    by rewrite Hc. }
  induction t as [|c t IH]; [done|]. simpl in *.
  apply andb_true_iff in Ht as [Hc Ht]. apply negb_true_iff in Hc.
  by rewrite Hc, IH.
Qed.


(** ** The identifier files *)

Lemma id_file_token l :
  blank l = false →
  ∃ t, first_token l = inr t
       ∧ (t' ← first_token l; mret (strip t')) = inr t.
Proof.
  intros Hb. destruct (first_token_nonblank _ Hb) as [t Ht].
  exists t. split; [done|]. rewrite Ht. cbn [mbind result_bind mret result_ret].
  f_equal. apply strip_token. by apply first_token_is_token in Ht as [? _].
Qed.

(** X11: a line of whitespace only that is not empty, such as an empty
    line read with its newline, is not skipped as comment lines and empty
    strings are: reading the identifier file raises [IndexError]. *)
Theorem id_file_blank_line id_to_keep_f l :
  l ∈ id_to_keep_f →
  id_line l = true →
  blank l = true →
  get_seqs_to_keep_lookup_from_seq_id_file id_to_keep_f = inl IndexError.
Proof.
  intros Hl Hid Hb. unfold get_seqs_to_keep_lookup_from_seq_id_file.
  rewrite (mapM_raises _ IndexError); [done| |].
  - intros x e. destruct (first_token x) as [e'|t] eqn:Hx; [|discriminate].
    intros [= <-]. by apply first_token_err in Hx.
  - apply Exists_exists. exists l. split.
    + apply list_elem_of_filter. split; [by rewrite Hid|done].
    + exists IndexError. by rewrite first_token_blank.
Qed.

Lemma id_file_blank_line_witness :
  get_seqs_to_keep_lookup_from_seq_id_file ["A x" +:+ newline; newline]
  = inl IndexError.
Proof.
  apply (id_file_blank_line _ newline).
  - right. by left.
  - reflexivity.
  - reflexivity.
Defined.

(** X12: when every line that is neither a comment nor empty has a
    non-whitespace character, the identifier file gives the set of the
    first tokens of those lines; comment lines contribute nothing. *)
Theorem id_file_lookup id_to_keep_f :
  (∀ l, l ∈ id_to_keep_f → id_line l = true → blank l = false) →
  ∃ lookup : gset string,
    get_seqs_to_keep_lookup_from_seq_id_file id_to_keep_f = inr lookup
    ∧ ∀ t, t ∈ lookup
           ↔ ∃ l, l ∈ id_to_keep_f ∧ id_line l = true
                  ∧ first_token l = inr t.
Proof.
  intros Hlines. unfold get_seqs_to_keep_lookup_from_seq_id_file.
  set (tok := λ l, match first_token l with
                   | inr t => t
                   | inl _ => EmptyString
                   end).
  assert (∀ l, l ∈ filter (λ l, id_line l) id_to_keep_f →
               l ∈ id_to_keep_f ∧ id_line l = true
               ∧ first_token l = inr (tok l)
               ∧ (t' ← first_token l; mret (strip t')) = inr (tok l)) as Hf.
  { intros l Hl. apply list_elem_of_filter in Hl as [Hid Hl].
    apply Is_true_true in Hid.
    destruct (id_file_token l (Hlines l Hl Hid)) as (t & Ht & Hs).
    assert (tok l = t) as -> by (unfold tok; by rewrite Ht).
    done. }
  rewrite (mapM_total _ tok).
  2:{ apply Forall_forall. intros l Hl. by apply Hf. }
  eexists. split; [reflexivity|]. intros t.
  rewrite elem_of_list_to_set, list_elem_of_fmap. split.
  - intros (l & -> & Hl). exists l. by apply Hf in Hl as (? & ? & ? & _).
  - intros (l & Hl & Hid & Ht). exists l. split.
    + unfold tok. by rewrite Ht.
    + apply list_elem_of_filter. split; [by rewrite Hid|done].
Qed.

Lemma id_file_lookup_witness :
  ∃ lookup : gset string,
    get_seqs_to_keep_lookup_from_seq_id_file
      ["# ids" +:+ newline; "A x" +:+ newline; EmptyString] = inr lookup
    ∧ ∀ t, t ∈ lookup
           ↔ ∃ l, l ∈ ["# ids" +:+ newline; "A x" +:+ newline; EmptyString]
                  ∧ id_line l = true ∧ first_token l = inr t.
Proof.
  apply id_file_lookup. intros l Hl Hid.
  repeat (apply elem_of_cons in Hl as [->|Hl]; [by vm_compute in Hid|]).
  by apply elem_of_nil in Hl.
Defined.






(** ** More on filter_mapping_file *)

Lemma for_each_ext_in {A S} (f g : S → A → result S) l acc :
  (∀ a x, x ∈ l → f a x = g a x) → for_each f acc l = for_each g acc l.
Proof.
  revert acc. induction l as [|x l IH]; intros acc Hext; [done|].
  rewrite !for_each_cons, Hext by by left.
  destruct (g acc x) as [e|acc']; [done|]. cbn [mbind result_bind].
  apply IH. intros a y Hy. apply Hext. by right.
Qed.

Lemma for_each_invariant {A S} (I : S → Prop) (f : S → A → result S) l :
  (∀ acc x acc', x ∈ l → I acc → f acc x = inr acc' → I acc') →
  ∀ acc acc', I acc → for_each f acc l = inr acc' → I acc'.
Proof.
  induction l as [|x l IH]; intros Hstep acc acc' Hacc.
  - by intros [= <-].
  - rewrite for_each_cons. destruct (f acc x) as [e|acc1] eqn:Hx; [done|].
    cbn [mbind result_bind]. apply IH.
    + intros a y a' Hy. apply Hstep. by right.
    + eapply Hstep; [by left|done..].
Qed.

Lemma pick_all (r : list string) : pick (seq 0 (length r)) r = r.
Proof.
  unfold pick. symmetry.
  etransitivity; [symmetry; apply list_fmap_id|]. apply (fmap_cells id).
Qed.

Lemma positions_all n :
  (2 ≤ n)%nat → 0 :: interior_positions n ++ [n - 1] = seq 0 n.
Proof.
  intros Hn. unfold interior_positions.
  replace n with (S (n - 2 + 1)) at 3 by lia.
  rewrite <- cons_seq, seq_app. simpl. do 3 f_equal. lia.
Qed.

(** The table returned when no column is renamed. *)
Lemma filter_mapping_file_plain map_data map_header good_sample_ids
    include_repeat_cols column_rename_ids :
  let rows := retained good_sample_ids map_data in
  let js := kept_positions include_repeat_cols rows (length map_header) in
  table_wf map_header map_data →
  rows ≠ [] →
  truthy column_rename_ids = None →
  filter_mapping_file map_data map_header good_sample_ids
    include_repeat_cols column_rename_ids
  = inr (pick js map_header, pick js <$> rows).
Proof.
  intros rows js Hwf Hrows Hnone.
  rewrite filter_mapping_file_loop by done. fold rows. rewrite Hnone.
  assert (0 < length map_header) as Hn.
  { destruct Hwf as [Hne _]. destruct map_header; simpl; [done|lia]. }
  rewrite (plain_loop map_header include_repeat_cols rows) by lia.
  cbn [mbind result_bind mret result_ret fst snd app].
  rewrite <- (zip_star_picked rows js) by done.
  unfold js, kept_positions, interior_positions, pick.
  by rewrite !fmap_cons, !fmap_app.
Qed.

(** Without a retained row the function raises. *)
Lemma filter_mapping_file_nothing_retained map_data map_header
    good_sample_ids include_repeat_cols column_rename_ids :
  retained good_sample_ids map_data = [] →
  filter_mapping_file map_data map_header good_sample_ids
    include_repeat_cols column_rename_ids = inl IndexError.
Proof.
  intros Hnone. unfold filter_mapping_file.
  pose proof (rows_to_keep_outcome good_sample_ids map_data) as Hkeep.
  destruct (rows_to_keep good_sample_ids map_data) as [e|kept].
  - by rewrite Hkeep.
  - rewrite Hkeep, Hnone. cbn [mbind result_bind Py.zip_star].
    destruct (Py.getitem map_header 0) as [e|h0] eqn:Hh; [|done].
    by apply getitem_err in Hh as ->.
Qed.

Lemma enumerate_index {A} (l : list A) i x :
  (i, x) ∈ Py.enumerate l → i < length l.
Proof.
  unfold Py.enumerate. intros Hin. apply elem_of_zip_l in Hin.
  apply elem_of_seq in Hin. lia.
Qed.

Lemma interior_length {A} (l : list A) :
  length (Py.interior l) = length l - 2.
Proof. unfold Py.interior. rewrite length_take, length_drop. lia. Qed.

(** X15: a value of [column_rename_ids] that designates no interior
    column is ignored without a word: zero and negative values on any
    table, and values beyond the last interior column on a mapping file,
    give what [None] gives. *)
Theorem filter_mapping_file_rename_ignored map_data map_header
    good_sample_ids include_repeat_cols (c : Z) :
  (c ≤ 0)%Z
  ∨ (table_wf map_header map_data
     ∧ (Z.of_nat (length map_header) - 2 < c)%Z) →
  filter_mapping_file map_data map_header good_sample_ids
    include_repeat_cols (Some c)
  = filter_mapping_file map_data map_header good_sample_ids
      include_repeat_cols None.
Proof.
  intros Hc. unfold filter_mapping_file.
  pose proof (rows_to_keep_outcome good_sample_ids map_data) as Hkeep.
  destruct (rows_to_keep good_sample_ids map_data) as [e|kept]; [done|].
  cbn [mbind result_bind]. subst kept.
  set (rows := retained good_sample_ids map_data).
  destruct (Py.getitem map_header 0) as [e|h0]; [done|].
  cbn [mbind result_bind].
  destruct (Py.getitem (Py.zip_star rows) 0) as [e|c0] eqn:Hc0; [done|].
  cbn [mbind result_bind].
  destruct (truthy (Some c)) as [c'|] eqn:Htruthy; [|done].
  assert (c' = c) as -> by (destruct c; simpl in Htruthy; congruence).
  cbn [truthy].
  rewrite (for_each_ext_in
             (rename_step map_header include_repeat_cols (c - 1))
             (plain_step map_header include_repeat_cols)); [done|].
  intros [hs cs] [i l] Hi. apply enumerate_index in Hi.
  rewrite interior_length in Hi. unfold rename_step.
  rewrite bool_decide_false; [done|].
  destruct Hc as [Hc|[[Hne Hall] Hc]]; [lia|].
  assert (rows ≠ []) as Hrows by (intros Hnil; by rewrite Hnil in Hc0).
  rewrite (zip_star_length rows (length map_header)) in Hi;
    [lia|done|by apply retained_length].
Qed.

Lemma filter_mapping_file_rename_ignored_witness :
  filter_mapping_file example_rows example_header ["S1"; "S3"] false
    (Some 3%Z)
  = filter_mapping_file example_rows example_header ["S1"; "S3"] false None.
Proof.
  apply filter_mapping_file_rename_ignored. right. split.
  - split; [discriminate|]. by repeat constructor.
  - simpl. lia.
Defined.

(** X16: with [include_repeat_cols] set and at least two columns, no
    column is dropped: the header is returned as it is, with the retained
    rows. *)
Theorem filter_mapping_file_keeps_all_columns map_data map_header
    good_sample_ids :
  table_wf map_header map_data →
  retained good_sample_ids map_data ≠ [] →
  (2 ≤ length map_header)%nat →
  filter_mapping_file map_data map_header good_sample_ids true None
  = inr (map_header, retained good_sample_ids map_data).
Proof.
  intros Hwf Hrows Hn. rewrite filter_mapping_file_plain by done.
  unfold kept_positions. rewrite filter_all.
  2:{ apply Forall_forall. intros j _. by left. }
  rewrite positions_all by done. rewrite pick_all. do 2 f_equal.
  rewrite <- (list_fmap_id (retained _ _)) at 2.
  apply list_fmap_ext. intros _ row Hrow%list_elem_of_lookup_2.
  destruct Hwf as [_ Hall]. apply (retained_length good_sample_ids) in Hall.
  rewrite Forall_forall in Hall. rewrite <- (Hall row Hrow).
  apply pick_all.
Qed.

Lemma filter_mapping_file_keeps_all_columns_witness :
  filter_mapping_file example_rows example_header ["S1"; "S3"] true None
  = inr (example_header, retained ["S1"; "S3"] example_rows).
Proof.
  apply filter_mapping_file_keeps_all_columns.
  - split; [discriminate|]. by repeat constructor.
  - vm_compute. discriminate.
  - simpl. lia.
Defined.

(** X17: a mapping file of a single column comes back with two: the
    column is both the first and the last one and is returned twice,
    whatever the other arguments are. *)
Theorem filter_mapping_file_single_column map_data h good_sample_ids
    include_repeat_cols column_rename_ids :
  table_wf [h] map_data →
  retained good_sample_ids map_data ≠ [] →
  filter_mapping_file map_data [h] good_sample_ids include_repeat_cols
    column_rename_ids
  = inr ([h; h], (λ row, row ++ row) <$> retained good_sample_ids map_data).
Proof.
  intros Hwf Hrows. rewrite filter_mapping_file_loop by done.
  cbn [length Nat.sub seq fmap list_fmap zip zip_with for_each].
  assert (∀ st : list string * list (list string),
            match truthy column_rename_ids with
            | Some _ | None => (mret st : result _)
            end = inr st) as Hst by (intros st; by destruct (truthy _)).
  rewrite Hst. cbn [mbind result_bind mret result_ret fst snd app].
  do 2 f_equal.
  change (Py.zip_star
            (column (retained good_sample_ids map_data) <$> [0; 0])
          = (λ row, row ++ row) <$> retained good_sample_ids map_data).
  rewrite (zip_star_picked _ [0; 0]) by done.
  apply list_fmap_ext. intros _ row Hrow%list_elem_of_lookup_2.
  destruct Hwf as [_ Hall]. apply (retained_length good_sample_ids) in Hall.
  rewrite Forall_forall in Hall. specialize (Hall row Hrow).
  by destruct row as [|c [|c' row]].
Qed.

Lemma filter_mapping_file_single_column_witness :
  filter_mapping_file [ ["S1"]; ["S2"] ] ["SampleID"] ["S2"] false None
  = inr (["SampleID"; "SampleID"],
         (λ row, row ++ row) <$> retained ["S2"] [ ["S1"]; ["S2"] ]).
Proof.
  apply filter_mapping_file_single_column.
  - split; [discriminate|]. by repeat constructor.
  - vm_compute. discriminate.
Defined.

Lemma Forall_zip_with_cons {A} (P : list A → Prop) (r : list A) T :
  (∀ x t, t ∈ T → P (x :: t)) → Forall P (zip_with cons r T).
Proof.
  revert T. induction r as [|x r IH]; intros [|t T] HP; simpl;
    try by constructor.
  constructor; [apply HP; by left|]. apply IH.
  intros y t' Ht'. apply HP. by right.
Qed.

(** Every transposed row has one cell per row of the matrix. *)
Lemma zip_star_row_length {A} (M : list (list A)) :
  Forall (λ r, length r = length M) (Py.zip_star M).
Proof.
  induction M as [|r M IH]; [constructor|].
  destruct M as [|r' M].
  - simpl. apply Forall_fmap, Forall_forall. by intros x _.
  - change (Py.zip_star (r :: r' :: M))
      with (zip_with cons r (Py.zip_star (r' :: M))).
    apply Forall_zip_with_cons. intros x t Ht.
    rewrite Forall_forall in IH. simpl. by rewrite (IH t Ht).
Qed.

Section shape.
Context (map_header : list string) (include_repeat_cols : bool) (m : nat).

(** The state of the loops: as many names as columns, at least one, and
    every column of [m] cells. *)
Let shaped (st : list string * list (list string)) : Prop :=
  length st.1 = length st.2 ∧ 0 < length st.1
  ∧ Forall (λ c, length c = m) st.2.

Lemma plain_step_shaped st i l st' :
  length l = m → shaped st →
  plain_step map_header include_repeat_cols st (i, l) = inr st' →
  shaped st'.
Proof.
  destruct st as [hs cs]. intros Hl (Hlen & Hpos & Hall).
  rewrite plain_step_eq. destruct (column_survives _ l).
  - destruct (Py.getitem map_header (i + 1)) as [e|h]; [done|].
    intros [= <-]. unfold shaped. simpl in *.
    rewrite !length_app, Forall_app, Forall_singleton. simpl. split; [lia|].
    split; [lia|done].
  - by intros [= <-].
Qed.

Lemma rename_step_shaped c st i l st' :
  length l = m → shaped st →
  rename_step map_header include_repeat_cols c st (i, l) = inr st' →
  shaped st'.
Proof.
  intros Hl Hst. destruct (decide (Z.of_nat i = c)) as [Hc|Hc].
  - destruct st as [hs cs]. destruct Hst as (Hlen & Hpos & Hall).
    rewrite rename_step_at by done.
    destruct (Py.getitem cs 0) as [e|r0] eqn:Hr0; [done|].
    cbn [mbind result_bind]. case_bool_decide; [done|].
    destruct (Py.getitem map_header (i + 1)) as [e|h]; [done|].
    intros [= <-]. unfold shaped. simpl in *.
    rewrite length_insert, !length_app. simpl. split; [lia|]. split; [lia|].
    apply Forall_insert; [|done]. rewrite Forall_app, Forall_singleton.
    split; [done|]. unfold Py.getitem in Hr0.
    destruct (cs !! 0) as [r|] eqn:Hr; [|done]. injection Hr0 as <-.
    rewrite Forall_forall in Hall. apply Hall.
    by eapply list_elem_of_lookup_2.
  - unfold rename_step. destruct st as [hs cs].
    rewrite bool_decide_false by done. by apply plain_step_shaped.
Qed.

End shape.

(** X18: on a mapping file, whatever the other arguments are, what the
    function returns is a table again: one row per retained row, every
    row with one cell per name of the new header, which has at least two
    names. *)
Theorem filter_mapping_file_shape map_data map_header good_sample_ids
    include_repeat_cols column_rename_ids headers result :
  table_wf map_header map_data →
  filter_mapping_file map_data map_header good_sample_ids
    include_repeat_cols column_rename_ids = inr (headers, result) →
  length result = length (retained good_sample_ids map_data)
  ∧ Forall (λ row, length row = length headers) result
  ∧ (2 ≤ length headers)%nat.
Proof.
  intros Hwf. set (rows := retained good_sample_ids map_data).
  destruct (decide (rows = [])) as [Hnil|Hrows].
  { by rewrite filter_mapping_file_nothing_retained. }
  rewrite filter_mapping_file_loop by done. fold rows.
  set (n := length map_header).
  set (cols := zip (seq 0 (n - 2)) (column rows <$> seq 1 (n - 2))).
  set (st0 := ([cell_at 0 map_header], [column rows 0])).
  assert (∀ x, x ∈ cols → length x.2 = length rows) as Hcols.
  { intros [i l] Hx. apply elem_of_zip_r in Hx.
    apply list_elem_of_fmap in Hx as (j & -> & _). apply length_fmap. }
  assert (∀ st,
            match truthy column_rename_ids with
            | Some c =>
                for_each (rename_step map_header include_repeat_cols (c - 1))
                  st0 cols
            | None =>
                for_each (plain_step map_header include_repeat_cols) st0 cols
            end = inr st →
            length st.1 = length st.2 ∧ 0 < length st.1
            ∧ Forall (λ c, length c = length rows) st.2) as Hloop.
  { intros st. destruct (truthy column_rename_ids) as [c|].
    - apply (for_each_invariant
               (λ st, length st.1 = length st.2 ∧ 0 < length st.1
                      ∧ Forall (λ c, length c = length rows) st.2)).
      + intros acc [i l] acc' Hx. apply rename_step_shaped.
        by apply (Hcols (i, l)).
      + simpl. split; [done|]. split; [lia|].
        apply Forall_singleton, length_fmap.
    - apply (for_each_invariant
               (λ st, length st.1 = length st.2 ∧ 0 < length st.1
                      ∧ Forall (λ c, length c = length rows) st.2)).
      + intros acc [i l] acc' Hx. apply plain_step_shaped.
        by apply (Hcols (i, l)).
      + simpl. split; [done|]. split; [lia|].
        apply Forall_singleton, length_fmap. }
  destruct (match truthy column_rename_ids with
            | Some c => _ | None => _ end) as [e|st]; [done|].
  destruct (Hloop st eq_refl) as (Hlen & Hpos & Hall).
  cbn [mbind result_bind mret result_ret]. intros [= <- <-].
  assert (length (st.2 ++ [column rows (n - 1)]) = length st.1 + 1) as HM
    by (rewrite length_app; simpl; lia).
  rewrite length_app. simpl. split; [|split; [|lia]].
  - apply zip_star_length; [by destruct st.2|].
    rewrite Forall_app, Forall_singleton. split; [done|apply length_fmap].
  - rewrite <- HM. apply zip_star_row_length.
Qed.

Lemma filter_mapping_file_shape_witness :
  length [ ["Dog"; "S1"; "d1"]; ["Cat"; "S3"; "d3"] ]
  = length (retained ["S1"; "S3"] example_rows)
  ∧ Forall (λ row, length row
                   = length ["SampleID"; "SampleID_was_Study"; "Description"])
      [ ["Dog"; "S1"; "d1"]; ["Cat"; "S3"; "d3"] ]
  ∧ (2 ≤ length ["SampleID"; "SampleID_was_Study"; "Description"])%nat.
Proof.
  apply (filter_mapping_file_shape example_rows example_header
           ["S1"; "S3"] false (Some 1%Z)).
  - split; [discriminate|]. by repeat constructor.
  - vm_compute. reflexivity.
Defined.

Lemma cell_at_pick js row j' j :
  js !! j' = Some j → cell_at j' (pick js row) = cell_at j row.
Proof.
  intros Hj. unfold cell_at at 1, pick. by rewrite list_lookup_fmap, Hj.
Qed.

Lemma pick_length js row : length (pick js row) = length js.
Proof. apply length_fmap. Qed.

Lemma id_in_cell good_sample_ids (row : list string) :
  row ≠ [] → id_in good_sample_ids row ↔ cell_at 0 row ∈ good_sample_ids.
Proof. by destruct row. Qed.

Lemma retained_ids good_sample_ids map_data :
  Forall (λ row, row ≠ []) map_data →
  column (retained good_sample_ids map_data) 0
  = filter (λ c, c ∈ good_sample_ids) (column map_data 0).
Proof.
  unfold column, retained. induction 1 as [|row rows Hrow _ IH]; [done|].
  rewrite fmap_cons, !filter_cons, <- IH.
  destruct (decide (id_in good_sample_ids row)) as [Hin|Hout].
  - rewrite decide_True by by apply id_in_cell. done.
  - rewrite decide_False; [done|]. intros Hin. by apply Hout, id_in_cell.
Qed.

Lemma table_rows_nonempty map_header map_data :
  table_wf map_header map_data → Forall (λ row, row ≠ []) map_data.
Proof.
  intros [Hne Hall]. eapply Forall_impl; [exact Hall|].
  intros row Hlen ->. by destruct map_header.
Qed.

(** X19: without renaming, the identifiers of the table returned are the
    identifiers of the input that are in [good_sample_ids], in the order
    of the input; they are unique when those of the input are. *)
Theorem filter_mapping_file_ids map_data map_header good_sample_ids
    include_repeat_cols headers result :
  table_wf map_header map_data →
  filter_mapping_file map_data map_header good_sample_ids
    include_repeat_cols None = inr (headers, result) →
  column result 0 = filter (λ c, c ∈ good_sample_ids) (column map_data 0)
  ∧ (NoDup (column map_data 0) → NoDup (column result 0)).
Proof.
  intros Hwf. set (rows := retained good_sample_ids map_data).
  destruct (decide (rows = [])) as [Hnil|Hrows].
  { by rewrite filter_mapping_file_nothing_retained. }
  rewrite filter_mapping_file_plain by done. fold rows. intros [= <- <-].
  assert (column (pick (kept_positions include_repeat_cols rows
                          (length map_header)) <$> rows) 0
          = filter (λ c, c ∈ good_sample_ids) (column map_data 0)) as Hids.
  { rewrite <- retained_ids by by eapply table_rows_nonempty.
    unfold column. rewrite <- list_fmap_compose.
    apply list_fmap_ext. intros _ row _.
    by apply (cell_at_pick _ row 0 0). }
  split; [done|]. rewrite Hids. intros Hnd.
  apply (sublist_NoDup _ (column map_data 0)); [done|apply sublist_filter].
Qed.

Lemma filter_mapping_file_ids_witness :
  column [ ["S1"; "Dog"; "d1"]; ["S3"; "Cat"; "d3"] ] 0
  = filter (λ c, c ∈ ["S3"; "S1"]) (column example_rows 0)
  ∧ (NoDup (column example_rows 0) →
     NoDup (column [ ["S1"; "Dog"; "d1"]; ["S3"; "Cat"; "d3"] ] 0)).
Proof.
  apply (filter_mapping_file_ids example_rows example_header
           ["S3"; "S1"] false ["SampleID"; "Study"; "Description"]).
  - split; [discriminate|]. by repeat constructor.
  - vm_compute. reflexivity.
Defined.

Lemma varies_picked include_repeat_cols rows js j' j :
  js !! j' = Some j →
  survives include_repeat_cols rows j →
  survives include_repeat_cols (pick js <$> rows) j'.
Proof.
  intros Hj [Hinc|Hvar]; [by left|right]. unfold varies in *.
  apply Exists_fmap. eapply Exists_impl; [exact Hvar|]. simpl.
  intros r1 Hex. apply Exists_fmap. eapply Exists_impl; [exact Hex|]. simpl.
  intros r2 Hne. by rewrite !(cell_at_pick js _ j' j).
Qed.

(** X20: pruning is idempotent: the table returned, pruned again with
    the same identifiers and without renaming, comes back unchanged. *)
Theorem filter_mapping_file_idempotent map_data map_header good_sample_ids
    include_repeat_cols headers result :
  table_wf map_header map_data →
  filter_mapping_file map_data map_header good_sample_ids
    include_repeat_cols None = inr (headers, result) →
  filter_mapping_file result headers good_sample_ids
    include_repeat_cols None = inr (headers, result).
Proof.
  intros Hwf. set (rows := retained good_sample_ids map_data).
  destruct (decide (rows = [])) as [Hnil|Hrows].
  { by rewrite filter_mapping_file_nothing_retained. }
  rewrite filter_mapping_file_plain by done. fold rows.
  set (n := length map_header).
  set (js := kept_positions include_repeat_cols rows n).
  intros Heq.
  assert (headers = pick js map_header ∧ result = pick js <$> rows)
    as [-> ->] by (by injection Heq).
  clear Heq.
  assert (2 ≤ length js)%nat as Hjs.
  { unfold js, kept_positions. simpl. rewrite length_app. simpl. lia. }
  assert (∀ row, pick js row ≠ []) as Hpick.
  { intros row Hnil. apply (f_equal length) in Hnil.
    rewrite pick_length in Hnil. simpl in Hnil. lia. }
  assert (table_wf (pick js map_header) (pick js <$> rows)) as Hwf'.
  { split; [done|].
    apply Forall_fmap, Forall_forall. intros row _. unfold compose.
    by rewrite !pick_length. }
  assert (retained good_sample_ids (pick js <$> rows) = pick js <$> rows)
    as Hret.
  { apply filter_all, Forall_fmap, Forall_forall. intros row Hrow.
    unfold compose. apply list_elem_of_filter in Hrow as [Hid Hrow].
    destruct Hwf as [Hne Hall]. rewrite Forall_forall in Hall.
    assert (row ≠ []) as Hrne.
    { intros ->. specialize (Hall _ Hrow). by destruct map_header. }
    apply id_in_cell; [done|].
    rewrite (cell_at_pick js row 0 0) by done. by apply id_in_cell. }
  rewrite filter_mapping_file_plain; [|done|..].
  2:{ rewrite Hret. by destruct rows. }
  2:{ done. }
  rewrite Hret, pick_length. unfold kept_positions.
  rewrite filter_all.
  2:{ apply Forall_forall. intros j' Hj'. apply elem_of_seq in Hj'.
      assert (is_Some (js !! j')) as [j Hj]
        by (apply lookup_lt_is_Some; lia).
      apply (varies_picked _ _ _ _ j); [done|].
      unfold js, kept_positions in Hj.
      destruct j' as [|j']; [lia|]. simpl in Hj.
      rewrite lookup_app_l in Hj.
      - apply list_elem_of_lookup_2, list_elem_of_filter in Hj. tauto.
      - unfold js, kept_positions in Hjs, Hj'. simpl in Hjs, Hj'.
        rewrite length_app in Hjs, Hj'. simpl in Hjs, Hj'. lia. }
  rewrite positions_all by done.
  rewrite <- (pick_length js map_header) at 1. rewrite pick_all.
  do 2 f_equal. rewrite <- list_fmap_compose.
  apply list_fmap_ext. intros _ row _. unfold compose.
  rewrite <- (pick_length js row) at 1. apply pick_all.
Qed.

Lemma filter_mapping_file_idempotent_witness :
  filter_mapping_file [ ["S1"; "Dog"; "d1"]; ["S3"; "Cat"; "d3"] ]
    ["SampleID"; "Study"; "Description"] ["S1"; "S3"] false None
  = inr (["SampleID"; "Study"; "Description"],
         [ ["S1"; "Dog"; "d1"]; ["S3"; "Cat"; "d3"] ]).
Proof.
  apply (filter_mapping_file_idempotent example_rows example_header).
  - split; [discriminate|]. by repeat constructor.
  - vm_compute. reflexivity.
Defined.

Lemma NoDup_fmap_inj_in {A B} (f : A → B) (l : list A) x y :
  NoDup (f <$> l) → x ∈ l → y ∈ l → f x = f y → x = y.
Proof.
  induction l as [|a l IH]; intros Hnd Hx Hy Heq.
  - by apply elem_of_nil in Hx.
  - rewrite fmap_cons in Hnd. apply NoDup_cons in Hnd as [Ha Hnd].
    apply elem_of_cons in Hx as [->|Hx]; apply elem_of_cons in Hy as [->|Hy].
    + done.
    + exfalso. apply Ha. rewrite Heq. by apply list_elem_of_fmap_2.
    + exfalso. apply Ha. rewrite <- Heq. by apply list_elem_of_fmap_2.
    + by apply IH.
Qed.

(** X21: the two steps compose: when the identifiers of a mapping file
    are unique, pruning it with the identifiers [get_sample_ids] selected
    retains exactly the rows the constraints select. *)
Theorem filter_mapping_file_of_selected map_data map_header
    (states : states_t) ids include_repeat_cols :
  let rows := filter (row_included map_header states) map_data in
  let js := kept_positions include_repeat_cols rows (length map_header) in
  table_wf map_header map_data →
  (∀ s, s ∈ states.*1 → s ∈ map_header) →
  NoDup (column map_data 0) →
  get_sample_ids map_data map_header states = inr ids →
  rows ≠ [] →
  filter_mapping_file map_data map_header ids include_repeat_cols None
  = inr (pick js map_header, pick js <$> rows).
Proof.
  intros rows js Hwf Hcols Hnd.
  rewrite get_sample_ids_filter by done. fold rows. intros [= <-] Hrows.
  assert (retained (cell_at 0 <$> rows) map_data = rows) as Hret.
  { unfold retained, rows. apply filter_ext_in. intros row Hrow.
    pose proof (table_rows_nonempty _ _ Hwf) as Hne.
    rewrite Forall_forall in Hne. rewrite id_in_cell by by apply Hne.
    rewrite list_elem_of_fmap. split.
    - intros (row' & Heq & Hrow').
      apply list_elem_of_filter in Hrow' as [Hinc Hrow'].
      by rewrite (NoDup_fmap_inj_in (cell_at 0) map_data row row').
    - intros Hinc. exists row. split; [done|].
      by apply list_elem_of_filter. }
  rewrite filter_mapping_file_plain; [|done|by rewrite Hret|done].
  by rewrite Hret.
Qed.

Lemma filter_mapping_file_of_selected_witness :
  filter_mapping_file example_rows example_header ["S1"; "S3"] false None
  = inr (pick (kept_positions false
                 (filter (row_included example_header [("BodySite", ["Palm"])])
                    example_rows) (length example_header))
           example_header,
         pick (kept_positions false
                 (filter (row_included example_header [("BodySite", ["Palm"])])
                    example_rows) (length example_header))
         <$> filter (row_included example_header [("BodySite", ["Palm"])])
               example_rows).
Proof.
  apply (filter_mapping_file_of_selected example_rows example_header
           [("BodySite", ["Palm"])] ["S1"; "S3"] false).
  - split; [discriminate|]. by repeat constructor.
  - intros s Hs. apply list_elem_of_singleton in Hs as ->.
    repeat constructor.
  - apply (bool_decide_unpack _). vm_compute. exact I.
  - vm_compute. reflexivity.
  - vm_compute. discriminate.
Defined.

(** ** More on filter_samples_from_distance_matrix *)

(** The labels and the matrix returned, for a given lookup. *)
Lemma filter_dm_select {A} (lookup : gset string) negate sample_ids
    (dm_data : list (list A)) samples_to_discard :
  fromkeys_first_tokens samples_to_discard = inr lookup →
  square sample_ids dm_data →
  filter_samples_from_distance_matrix (sample_ids, dm_data)
    samples_to_discard negate
  = inr (filter (sample_kept lookup negate) sample_ids,
         select_kept lookup negate sample_ids
         <$> select_kept lookup negate sample_ids dm_data).
Proof.
  intros Hl [Hlen Hrows].
  unfold filter_samples_from_distance_matrix. rewrite Hl. simpl.
  rewrite !keep_sample_filter.
  fold (select_kept lookup negate sample_ids dm_data).
  rewrite select_ids by done.
  fold (select_kept lookup negate sample_ids
          (Py.zip_star (select_kept lookup negate sample_ids dm_data))).
  rewrite select_zip_star. do 2 f_equal.
  set (k := length (filter (sample_kept lookup negate) sample_ids)).
  destruct (select_kept lookup negate sample_ids dm_data) as [|r R] eqn:HR;
    [done|].
  assert (length (select_kept lookup negate sample_ids dm_data) = k) as Hk
    by by apply select_length.
  apply (zip_star_involutive _ k); [rewrite HR in Hk; simpl in Hk; lia|].
  rewrite <- HR. apply Forall_fmap, Forall_forall. intros row Hrow.
  unfold compose. apply select_length.
  rewrite Forall_forall in Hrows. apply Hrows.
  unfold select_kept in Hrow.
  apply list_elem_of_fmap in Hrow as ([r' i] & -> & Hin).
  apply list_elem_of_filter in Hin as [_ Hin]. by apply elem_of_zip_l in Hin.
Qed.

Lemma select_rows {A} lookup negate ids (xs : list A) x :
  x ∈ select_kept lookup negate ids xs → x ∈ xs.
Proof.
  unfold select_kept. intros Hx.
  apply list_elem_of_fmap in Hx as ([x' i] & -> & Hin).
  apply list_elem_of_filter in Hin as [_ Hin]. by apply elem_of_zip_l in Hin.
Qed.

Lemma select_all {A} lookup negate ids (xs : list A) :
  Forall (sample_kept lookup negate) ids → length xs = length ids →
  select_kept lookup negate ids xs = xs.
Proof.
  intros Hall. revert xs. induction Hall as [|id ids Hid _ IH];
    intros [|x xs] Hlen; try done.
  rewrite select_cons, decide_True by done. f_equal. apply IH.
  simpl in Hlen. lia.
Qed.

(** X22: a labelled square matrix stays one: the matrix returned has one
    row and one column per label returned. *)
Theorem filter_dm_square {A} sample_ids (dm_data : list (list A))
    samples_to_discard negate new_sample_ids new_dm_data :
  square sample_ids dm_data →
  filter_samples_from_distance_matrix (sample_ids, dm_data)
    samples_to_discard negate = inr (new_sample_ids, new_dm_data) →
  square new_sample_ids new_dm_data.
Proof.
  intros Hsq.
  destruct (fromkeys_first_tokens samples_to_discard) as [e|lookup] eqn:Hl.
  { unfold filter_samples_from_distance_matrix. by rewrite Hl. }
  rewrite (filter_dm_select lookup) by done. intros [= <- <-].
  destruct Hsq as [Hlen Hrows]. split.
  - rewrite length_fmap. by apply select_length.
  - apply Forall_fmap, Forall_forall. intros row Hrow. unfold compose.
    apply select_length. rewrite Forall_forall in Hrows.
    by apply Hrows, (select_rows lookup negate sample_ids).
Qed.

Lemma filter_dm_square_witness :
  square ["A"; "C"] [ [0; 2]; [2; 0] ]%Z.
Proof.
  apply (filter_dm_square ["A"; "B"; "C"]
           [ [0; 1; 2]; [1; 0; 3]; [2; 3; 0] ]%Z ["B x"] false).
  - split; [done|]. by repeat constructor.
  - vm_compute. reflexivity.
Defined.

(** X23: samples to discard that are not in the matrix are passed over in
    silence: when no label is among the first tokens of
    [samples_to_discard], as when there is nothing to discard, the labels
    and the matrix come back as they are. *)
Theorem filter_dm_unknown_samples {A} sample_ids (dm_data : list (list A))
    samples_to_discard (lookup : gset string) :
  fromkeys_first_tokens samples_to_discard = inr lookup →
  square sample_ids dm_data →
  (∀ s, s ∈ sample_ids → s ∉ lookup) →
  filter_samples_from_distance_matrix (sample_ids, dm_data)
    samples_to_discard false = inr (sample_ids, dm_data).
Proof.
  intros Hl Hsq Hnone. rewrite (filter_dm_select lookup) by done.
  assert (Forall (sample_kept lookup false) sample_ids) as Hall
    by by apply Forall_forall.
  destruct Hsq as [Hlen Hrows].
  rewrite filter_all, (select_all _ _ _ dm_data) by done. do 2 f_equal.
  rewrite <- (list_fmap_id dm_data) at 2. apply list_fmap_ext.
  intros _ row Hrow%list_elem_of_lookup_2. simpl.
  rewrite Forall_forall in Hrows. apply select_all; [done|by apply Hrows].
Qed.

Lemma filter_dm_unknown_samples_witness :
  filter_samples_from_distance_matrix
    (["A"; "B"], [ [0; 1]; [1; 0] ]%Z) ["Z"] false
  = inr (["A"; "B"], [ [0; 1]; [1; 0] ]%Z).
Proof.
  apply (filter_dm_unknown_samples _ _ _ {["Z"]}).
  - vm_compute. reflexivity.
  - split; [done|]. by repeat constructor.
  - intros s Hs Hin. apply elem_of_singleton in Hin as ->.
    apply elem_of_cons in Hs as [Hs|Hs]; [discriminate|].
    apply list_elem_of_singleton in Hs. discriminate.
Defined.

(** X24: with the same samples to discard, the labels returned without
    [negate] and those returned with it are complementary: together they
    are the labels of the matrix, each exactly once. *)
Theorem filter_dm_negate_complement {A} sample_ids (dm_data : list (list A))
    samples_to_discard kept kept_dm discarded discarded_dm :
  square sample_ids dm_data →
  filter_samples_from_distance_matrix (sample_ids, dm_data)
    samples_to_discard false = inr (kept, kept_dm) →
  filter_samples_from_distance_matrix (sample_ids, dm_data)
    samples_to_discard true = inr (discarded, discarded_dm) →
  kept ++ discarded ≡ₚ sample_ids.
Proof.
  intros Hsq.
  destruct (fromkeys_first_tokens samples_to_discard) as [e|lookup] eqn:Hl.
  { unfold filter_samples_from_distance_matrix. by rewrite Hl. }
  rewrite !(filter_dm_select lookup) by done. intros [= <- <-] [= <- <-].
  rewrite (list_filter_iff (sample_kept lookup true)
             (λ s, ¬ sample_kept lookup false s)).
  - apply filter_app_complement.
  - intros s. unfold sample_kept. split; [by intros ? ?|].
    intros Hn. by destruct (decide (s ∈ lookup)).
Qed.

Lemma filter_dm_negate_complement_witness :
  ["B"] ++ ["A"] ≡ₚ ["A"; "B"].
Proof.
  apply (filter_dm_negate_complement ["A"; "B"] [ [0; 1]; [1; 0] ]%Z ["A"]
           ["B"] [ [0%Z] ] ["A"] [ [0%Z] ]).
  - split; [done|]. by repeat constructor.
  - vm_compute. reflexivity.
  - vm_compute. reflexivity.
Defined.

(** X25: a symmetric matrix stays symmetric. *)
Theorem filter_dm_symmetric {A} sample_ids (dm_data : list (list A))
    samples_to_discard negate new_sample_ids new_dm_data :
  square sample_ids dm_data →
  symmetric dm_data →
  filter_samples_from_distance_matrix (sample_ids, dm_data)
    samples_to_discard negate = inr (new_sample_ids, new_dm_data) →
  symmetric new_dm_data.
Proof.
  intros Hsq Hsym.
  destruct (fromkeys_first_tokens samples_to_discard) as [e|lookup] eqn:Hl.
  { unfold filter_samples_from_distance_matrix. by rewrite Hl. }
  rewrite (filter_dm_select lookup) by done. intros [= <- <-].
  destruct Hsq as [Hlen Hrows]. unfold symmetric in *.
  set (k := length (filter (sample_kept lookup negate) sample_ids)).
  destruct (decide (k = 0)) as [Hk|Hk].
  { assert (select_kept lookup negate sample_ids dm_data = []) as ->; [|done].
    apply length_zero_iff_nil. by rewrite select_length. }
  rewrite <- select_zip_star.
  assert (Py.zip_star (select_kept lookup negate sample_ids dm_data)
          = select_kept lookup negate sample_ids <$> dm_data) as ->.
  { rewrite <- Hsym at 1. rewrite select_zip_star.
    apply (zip_star_involutive _ k); [lia|].
    apply Forall_fmap, Forall_forall. intros row Hrow. unfold compose.
    apply select_length. rewrite Forall_forall in Hrows. by apply Hrows. }
  apply select_fmap.
Qed.

Lemma filter_dm_symmetric_witness :
  symmetric [ [0; 2]; [2; 0] ]%Z.
Proof.
  apply (filter_dm_symmetric ["A"; "B"; "C"]
           [ [0; 1; 2]; [1; 0; 3]; [2; 3; 0] ]%Z ["B"] false ["A"; "C"]).
  - split; [done|]. by repeat constructor.
  - reflexivity.
  - vm_compute. reflexivity.
Defined.

(** ** negate_tips_to_keep *)

(** X26: the tips returned are tips of the tree that are not to keep, and
    negating twice gives back the tips to keep that are in the tree,
    whichever the order in which the set returned is listed. *)
Theorem negate_tips_to_keep_twice {tree node : Type} (tips : tree → list node)
    (Name : node → string) (tips_to_keep negated : list string) (t : tree) :
  negated ≡ₚ elements (negate_tips_to_keep tips Name tips_to_keep t) →
  (∀ x, x ∈ negate_tips_to_keep tips Name tips_to_keep t
        ↔ x ∈ Name <$> tips t ∧ x ∉ tips_to_keep)
  ∧ ∀ x, x ∈ negate_tips_to_keep tips Name negated t
         ↔ x ∈ Name <$> tips t ∧ x ∈ tips_to_keep.
Proof.
  intros Hperm.
  assert (∀ keep x, x ∈ negate_tips_to_keep tips Name keep t
                    ↔ x ∈ Name <$> tips t ∧ x ∉ keep) as Hrule.
  { intros keep x. unfold negate_tips_to_keep.
    by rewrite elem_of_difference, !elem_of_list_to_set. }
  split; [apply Hrule|]. intros x. rewrite Hrule, Hperm, elem_of_elements.
  rewrite Hrule. split.
  - intros [Htip Hn]. split; [done|].
    destruct (decide (x ∈ tips_to_keep)) as [|Hout]; [done|].
    exfalso. by apply Hn.
  - intros [Htip Hin]. split; [done|]. by intros [_ Hout].
Qed.

Lemma negate_tips_to_keep_twice_witness :
  (∀ x, x ∈ negate_tips_to_keep (λ t : list string, t) id ["a"; "z"]
              ["a"; "b"]
        ↔ x ∈ id <$> ["a"; "b"] ∧ x ∉ ["a"; "z"])
  ∧ ∀ x, x ∈ negate_tips_to_keep (λ t : list string, t) id ["b"] ["a"; "b"]
         ↔ x ∈ id <$> ["a"; "b"] ∧ x ∈ ["a"; "z"].
Proof.
  apply (negate_tips_to_keep_twice (λ t : list string, t) id ["a"; "z"]
           ["b"] ["a"; "b"]).
  vm_compute. reflexivity.
Defined.

(** ** More on get_filter_function *)

Lemma get_filter_function_keeps {V M} {DV : DataVector V}
    (ids_to_keep : gset string) min_count max_count negate
    (data_vector : V) id_ (metadata : M) :
  get_filter_function ids_to_keep min_count max_count negate data_vector id_
    metadata = true
  ↔ (if negate then id_ ∉ ids_to_keep else id_ ∈ ids_to_keep)
    ∧ in_range min_count max_count data_vector.
Proof.
  unfold get_filter_function, in_range.
  destruct negate; rewrite !andb_true_iff, bool_decide_eq_true; tauto.
Qed.

(** X27: for any data vector, the predicate built with
    [negate_ids_to_keep] and the one built without it never both keep; one
    of them keeps exactly when the count test on the vector's sum
    passes. *)
Theorem get_filter_function_negate_complement {V M} {DV : DataVector V}
    (ids_to_keep : gset string) min_count max_count (data_vector : V) id_
    (metadata : M) :
  let f := get_filter_function ids_to_keep min_count max_count false in
  let g := get_filter_function ids_to_keep min_count max_count true in
  ¬ (f data_vector id_ metadata = true ∧ g data_vector id_ metadata = true)
  ∧ (f data_vector id_ metadata = true ∨ g data_vector id_ metadata = true
     ↔ le_sum min_count (vector_sum data_vector) = true
       ∧ sum_le (vector_sum data_vector) max_count = true).
Proof.
  cbv zeta. rewrite !get_filter_function_keeps. unfold in_range. split.
  - intros [[Hin _] [Hout _]]. contradiction.
  - destruct (decide (id_ ∈ ids_to_keep)); tauto.
Qed.

(** X28: on a vector of [int64] counts, when [max_count < min_count] the
    predicate keeps nothing, whatever the identifiers are and whether or
    not the sum wraps around. *)
Theorem get_filter_function_empty_range {M} (ids_to_keep : gset string)
    min_count max_count negate (data_vector : list Z) id_ (metadata : M) :
  (max_count < min_count)%Z →
  get_filter_function ids_to_keep min_count max_count negate data_vector id_
    metadata = false.
Proof.
  intros Hlt. apply not_true_is_false.
  rewrite get_filter_function_keeps, int64_in_range. lia.
Qed.

Lemma get_filter_function_empty_range_witness :
  get_filter_function {["a"]} 5 3 true [4%Z] "b" () = false.
Proof. apply get_filter_function_empty_range. lia. Defined.

(** X29: on a vector of [int64] counts, widening the bounds, and
    enlarging [ids_to_keep] (shrinking it, with [negate_ids_to_keep]),
    never rejects what was kept. *)
Theorem get_filter_function_monotone {M} (ids ids' : gset string)
    min_count max_count min_count' max_count' (negate : bool)
    (data_vector : list Z) id_ (metadata : M) :
  (min_count' ≤ min_count)%Z →
  (max_count ≤ max_count')%Z →
  (if negate then ids' ⊆ ids else ids ⊆ ids' : Prop) →
  get_filter_function ids min_count max_count negate data_vector id_
    metadata = true →
  get_filter_function ids' min_count' max_count' negate data_vector id_
    metadata = true.
Proof.
  intros Hmin Hmax Hids.
  rewrite !get_filter_function_keeps, !int64_in_range.
  intros [Hmem Hsum]. split; [|lia].
  destruct negate.
  - intros Hin. apply Hmem. by apply Hids.
  - by apply Hids.
Qed.

Lemma get_filter_function_monotone_witness :
  get_filter_function {["a"; "b"]} 0 9 false [1; 2]%Z "a" () = true.
Proof.
  apply (get_filter_function_monotone {["a"]} {["a"; "b"]} 3 5 0 9).
  - lia.
  - lia.
  - apply (bool_decide_unpack _). vm_compute. exact I.
  - reflexivity.
Defined.
